(** * WhatsApp chat dashboard: the chat-log parser of [app.py]

    A shallow embedding of section 3 of [app.py] ("PARSE CHAT DATA"): the
    compiled header [pattern], the loop over [chat_data] that builds
    [messages], and the date normalisation of the data frame.

    The Python values the loop touches are modelled as they are at run time:
    a [str] is a sequence of Unicode code points, a [bytes] object a sequence
    of octets, and an operation that can raise returns a [result]. *)

From Stdlib Require Import NArith List Strings.String Strings.Ascii Strings.Byte Lia Bool.
From stdpp Require Import base option list numbers gmap strings sorting.

Set Default Proof Using "Type".
Local Open Scope N_scope.

(** ** Python values *)

Module Py.

(** A [str] object: its code points. *)
Definition str := list N.
(** A [bytes] object: its octets. *)
Definition bytes := list byte.

(** Literals of the source, written as ASCII text. *)
Definition ord (a : ascii) : N := N_of_ascii a.
Definition u (s : string) : str := map ord (list_ascii_of_string s).
Definition b (s : string) : bytes := list_byte_of_string s.

(** The exceptions the parsing section can meet. *)
Inductive exn := UnicodeDecodeError | AttributeError | TypeError.

Inductive result (A : Type) :=
| Return (a : A)
| Raise (e : exn).
Arguments Return {A} a.
Arguments Raise {A} e.

Definition bind {A B} (r : result A) (f : A -> result B) : result B :=
  match r with
  | Return a => f a
  | Raise e => Raise e
  end.

(** [try: body / except: handler], with a bare [except] clause. *)
Definition try_except {A} (body : result A) (handler : result A) : result A :=
  match body with
  | Return a => Return a
  | Raise _ => handler
  end.

(** A [for] loop whose body can raise: the first exception leaves the loop. *)
Fixpoint for_each {S A} (body : S -> A -> result S) (st : S) (xs : list A)
  : result S :=
  match xs with
  | [] => Return st
  | x :: xs' => bind (body st x) (fun st' => for_each body st' xs')
  end.

(** [Py_UNICODE_ISSPACE]: the code points [str.strip()] removes and the
    class [\s] of a str pattern contains (bidirectional type WS, B or S, or
    category Zs). *)
Definition Py_UNICODE_ISSPACE (c : N) : bool :=
  ((0x09 <=? c) && (c <=? 0x0D)) || ((0x1C <=? c) && (c <=? 0x20))
  || (c =? 0x85) || (c =? 0xA0) || (c =? 0x1680)
  || ((0x2000 <=? c) && (c <=? 0x200A))
  || (c =? 0x2028) || (c =? 0x2029) || (c =? 0x202F) || (c =? 0x205F)
  || (c =? 0x3000).

(** The decimal digits of the Unicode database (general category Nd, as of
    Unicode 14.0): each entry is the code point of a digit zero and the
    length of the run that starts there. *)
Definition decimal_runs : list (N * N) :=
  [ (0x30, 10); (0x660, 10); (0x6F0, 10); (0x7C0, 10); (0x966, 10);
    (0x9E6, 10); (0xA66, 10); (0xAE6, 10); (0xB66, 10); (0xBE6, 10);
    (0xC66, 10); (0xCE6, 10); (0xD66, 10); (0xDE6, 10); (0xE50, 10);
    (0xED0, 10); (0xF20, 10); (0x1040, 10); (0x1090, 10); (0x17E0, 10);
    (0x1810, 10); (0x1946, 10); (0x19D0, 10); (0x1A80, 10); (0x1A90, 10);
    (0x1B50, 10); (0x1BB0, 10); (0x1C40, 10); (0x1C50, 10); (0xA620, 10);
    (0xA8D0, 10); (0xA900, 10); (0xA9D0, 10); (0xA9F0, 10); (0xAA50, 10);
    (0xABF0, 10); (0xFF10, 10); (0x104A0, 10); (0x10D30, 10); (0x11066, 10);
    (0x110F0, 10); (0x11136, 10); (0x111D0, 10); (0x112F0, 10);
    (0x11450, 10); (0x114D0, 10); (0x11650, 10); (0x116C0, 10);
    (0x11730, 10); (0x118E0, 10); (0x11950, 10); (0x11C50, 10);
    (0x11D50, 10); (0x11DA0, 10); (0x16A60, 10); (0x16AC0, 10);
    (0x16B50, 10); (0x1D7CE, 50); (0x1E140, 10); (0x1E2F0, 10);
    (0x1E950, 10); (0x1FBF0, 10) ].

(** [Py_UNICODE_ISDECIMAL]: the class [\d] of a str pattern. *)
Definition Py_UNICODE_ISDECIMAL (c : N) : bool :=
  existsb (fun r => (fst r <=? c) && (c <? fst r + snd r)) decimal_runs.

(** [Py_ISSPACE]: what [bytes.strip()] removes. *)
Definition Py_ISSPACE (x : byte) : bool :=
  let c := Byte.to_N x in ((0x09 <=? c) && (c <=? 0x0D)) || (c =? 0x20).

(** [strip()] with no argument: [lstrip] then [rstrip]. *)
Fixpoint lstrip {A} (sp : A -> bool) (s : list A) : list A :=
  match s with
  | [] => []
  | c :: s' => if sp c then lstrip sp s' else s
  end.

Definition rstrip {A} (sp : A -> bool) (s : list A) : list A :=
  rev (lstrip sp (rev s)).

Definition strip {A} (sp : A -> bool) (s : list A) : list A :=
  rstrip sp (lstrip sp s).

Definition str_strip : str -> str := strip Py_UNICODE_ISSPACE.
Definition bytes_strip : bytes -> bytes := strip Py_ISSPACE.

(** *** [bytes.decode("utf-8")], error handler [strict] *)

(** A continuation octet, [10xxxxxx]. *)
Definition is_cont (x : N) : bool := (0x80 <=? x) && (x <=? 0xBF).
Definition payload (x : N) : N := N.land x 0x3F.

(** The decoder accepts exactly the well-formed sequences: shortest form
    only, no surrogate (U+D800..U+DFFF), nothing above U+10FFFF. *)
Fixpoint utf8_decode (bs : list N) : option str :=
  match bs with
  | [] => Some []
  | b0 :: r0 =>
    if b0 <? 0x80 then cons b0 <$> utf8_decode r0
    else if (0xC2 <=? b0) && (b0 <=? 0xDF) then
      match r0 with
      | b1 :: r1 =>
        if is_cont b1
        then cons (N.shiftl (N.land b0 0x1F) 6 + payload b1) <$> utf8_decode r1
        else None
      | _ => None
      end
    else if (0xE0 <=? b0) && (b0 <=? 0xEF) then
      match r0 with
      | b1 :: b2 :: r2 =>
        let lo := if b0 =? 0xE0 then 0xA0 else 0x80 in
        let hi := if b0 =? 0xED then 0x9F else 0xBF in
        if (lo <=? b1) && (b1 <=? hi) && is_cont b2
        then cons (N.shiftl (N.land b0 0x0F) 12 + N.shiftl (payload b1) 6
                   + payload b2) <$> utf8_decode r2
        else None
      | _ => None
      end
    else if (0xF0 <=? b0) && (b0 <=? 0xF4) then
      match r0 with
      | b1 :: b2 :: b3 :: r3 =>
        let lo := if b0 =? 0xF0 then 0x90 else 0x80 in
        let hi := if b0 =? 0xF4 then 0x8F else 0xBF in
        if (lo <=? b1) && (b1 <=? hi) && is_cont b2 && is_cont b3
        then cons (N.shiftl (N.land b0 0x07) 18 + N.shiftl (payload b1) 12
                   + N.shiftl (payload b2) 6 + payload b3) <$> utf8_decode r3
        else None
      | _ => None
      end
    else None
  end.

(** The objects a line of [chat_data] can be: [readlines()] of the uploaded
    file yields [bytes]; a caller that passes text passes [str]. *)
Inductive object :=
| PyBytes (x : bytes)
| PyStr (s : str).

(** [line.decode("utf-8")]: a [str] has no such method. *)
Definition decode_utf8 (o : object) : result str :=
  match o with
  | PyBytes x =>
    match utf8_decode (map Byte.to_N x) with
    | Some s => Return s
    | None => Raise UnicodeDecodeError
    end
  | PyStr _ => Raise AttributeError
  end.

(** [line.strip()], on either kind of object. *)
Definition obj_strip (o : object) : object :=
  match o with
  | PyBytes x => PyBytes (bytes_strip x)
  | PyStr s => PyStr (str_strip s)
  end.

(** [" " + o]: concatenating a [str] and a [bytes] is a [TypeError]. *)
Definition space_plus (o : object) : result str :=
  match o with
  | PyStr s => Return (ord " " :: s)
  | PyBytes _ => Raise TypeError
  end.

End Py.

(** ** The regular-expression engine behind [re.compile] and [pattern.match]

    The fragment of [re] that [pattern] uses, with the semantics of the
    backtracking matcher: alternatives are tried in order, a greedy repeat
    tries the longest run first and gives characters back one at a time, and
    the first complete match wins. *)

Module Sre.
Import Py.

(** What one pattern position can accept. *)
Inductive charset :=
| CATEGORY_DIGIT                 (* \d  *)
| CATEGORY_SPACE                 (* \s  *)
| ANY                            (* .   : anything but a newline *)
| SET (cs : list N)              (* [...]  *)
| NEGATE (cs : list N).          (* [^...] *)

Definition inb (c : N) (cs : list N) : bool := existsb (N.eqb c) cs.

Definition charset_in (p : charset) (c : N) : bool :=
  match p with
  | CATEGORY_DIGIT => Py_UNICODE_ISDECIMAL c
  | CATEGORY_SPACE => Py_UNICODE_ISSPACE c
  | ANY => negb (c =? 0x0A)
  | SET cs => inb c cs
  | NEGATE cs => negb (inb c cs)
  end.

(** Parsed patterns.  Every repeat of [pattern] has a one-character body, so
    [MAX_REPEAT] takes a [charset]; [hi = None] is [MAXREPEAT]. *)
Inductive regex :=
| AT_BEGINNING                                         (* ^ *)
| AT_END                                               (* $ *)
| LITERAL (c : N)
| IN (p : charset)                                     (* one character of p *)
| MAX_REPEAT (lo : nat) (hi : option nat) (p : charset)  (* p{lo,hi}, greedy *)
| SEQ (r1 r2 : regex)
| SUBPATTERN (i : nat) (r : regex).                    (* ( ... ), group i *)

(** The marks of a match: group number to captured text. *)
Abbreviation marks := (gmap nat str).

Definition within (n : nat) (hi : option nat) : Prop :=
  match hi with
  | None => True
  | Some h => (n <= h)%nat
  end.

Definition has_room (hi : option nat) : bool :=
  match hi with
  | None => true
  | Some h => negb (Nat.eqb h 0)
  end.

(** A stop after [n] characters is admissible for [p{lo,hi}] on [s]: the
    stops a greedy repeat chooses among. *)
Definition admissible (p : charset) (lo : nat) (hi : option nat)
    (s : str) (n : nat) : Prop :=
  (lo <= n <= length s)%nat /\ within n hi
  /\ forallb (charset_in p) (take n s) = true.

Section Matcher.
Context {R : Type}.

(** Greedy repeat of a one-character body from [s], at position [pos]:
    take one more character while allowed, and fall back to stopping here
    only when everything longer has failed. *)
Fixpoint max_repeat (p : charset) (lo : nat) (hi : option nat)
    (pos : nat) (s : str) (k : nat -> str -> option R) {struct s} : option R :=
  let stop := if Nat.eqb lo 0 then k pos s else None in
  match s with
  | c :: s' =>
    if charset_in p c && has_room hi then
      match max_repeat p (Nat.pred lo) (Nat.pred <$> hi) (S pos) s' k with
      | Some r => Some r
      | None => stop
      end
    else stop
  | [] => stop
  end.

End Matcher.

(** [rmatch r pos s m k]: match [r] against [s], the text from position
    [pos] on, with marks [m]; on success continue with [k]. *)
Fixpoint rmatch (r : regex) (pos : nat) (s : str) (m : marks)
    (k : nat -> str -> marks -> option marks) : option marks :=
  match r with
  | AT_BEGINNING => if Nat.eqb pos 0 then k pos s m else None
  | AT_END =>
    match s with
    | [] => k pos s m
    | [c] => if c =? 0x0A then k pos s m else None
    | _ => None
    end
  | LITERAL c =>
    match s with
    | c' :: s' => if c' =? c then k (S pos) s' m else None
    | [] => None
    end
  | IN p =>
    match s with
    | c :: s' => if charset_in p c then k (S pos) s' m else None
    | [] => None
    end
  | MAX_REPEAT lo hi p => max_repeat p lo hi pos s (fun pos' s' => k pos' s' m)
  | SEQ r1 r2 =>
    rmatch r1 pos s m (fun pos' s' m' => rmatch r2 pos' s' m' k)
  | SUBPATTERN i r1 =>
    rmatch r1 pos s m
      (fun pos' s' m' => k pos' s' (<[i := take (pos' - pos) s]> m'))
  end.

(** [Pattern.match(string)]: match at the start of the string; the match
    object is represented by its marks. *)
Definition pattern_match (r : regex) (s : str) : option marks :=
  rmatch r 0 s ∅ (fun _ _ m => Some m).

(** [Match.group(i)].  A group that took no part in the match has no mark;
    every group of [pattern] below takes part in every match
    (lemma [pattern_marks]). *)
Definition group (m : marks) (i : nat) : str := default [] (m !! i).

(** Which texts a pattern can consume, apart from the order in which the
    matcher tries them: [derives r pos w rest m m'] says that [r] can
    consume [w] at position [pos] when [rest] follows, taking the marks from
    [m] to [m']. *)
Inductive derives : regex -> nat -> str -> str -> marks -> marks -> Prop :=
| derives_bol rest m :
    derives AT_BEGINNING 0 [] rest m m
| derives_eol pos m :
    derives AT_END pos [] [] m m
| derives_eol_nl pos m :
    derives AT_END pos [] [0x0A] m m
| derives_lit c pos rest m :
    derives (LITERAL c) pos [c] rest m m
| derives_in p c pos rest m :
    charset_in p c = true ->
    derives (IN p) pos [c] rest m m
| derives_rep lo hi p pos w rest m :
    (lo <= length w)%nat -> within (length w) hi ->
    forallb (charset_in p) w = true ->
    derives (MAX_REPEAT lo hi p) pos w rest m m
| derives_seq r1 r2 pos w1 w2 rest m0 m1 m2 :
    derives r1 pos w1 (w2 ++ rest) m0 m1 ->
    derives r2 (pos + length w1) w2 rest m1 m2 ->
    derives (SEQ r1 r2) pos (w1 ++ w2) rest m0 m2
| derives_sub i r pos w rest m0 m1 :
    derives r pos w rest m0 m1 ->
    derives (SUBPATTERN i r) pos w rest m0 (<[i := w]> m1).

End Sre.

(** ** Section 3 of [app.py]: PARSE CHAT DATA *)

Module App.
Import Py Sre.

Infix "+>" := SEQ (at level 60, right associativity).

Definition chr (a : ascii) : regex := LITERAL (ord a).
Definition digits (lo : nat) (hi : nat) : regex :=
  MAX_REPEAT lo (Some hi) CATEGORY_DIGIT.
Definition star (p : charset) : regex := MAX_REPEAT 0 None p.
Definition plus (p : charset) : regex := MAX_REPEAT 1 None p.
Definition opt (p : charset) : regex := MAX_REPEAT 0 (Some 1%nat) p.

(** [pattern = re.compile(...)], compiled without flags.  The source text
    of the pattern, piece by piece as it is parsed below:
      ^  ( \d{1,2} / \d{1,2} / \d{2,4} )  ,  \s*
         ( \d{1,2} : \d{2} \s? [ap] m )  \s*  -  \s*
         ( [^:]+ )  :  \s*  ( .* )  $                                    *)
Definition pattern : regex :=
  AT_BEGINNING
  +> SUBPATTERN 1 (digits 1 2 +> chr "/" +> digits 1 2 +> chr "/" +> digits 2 4)
  +> chr "," +> star CATEGORY_SPACE
  +> SUBPATTERN 2 (digits 1 2 +> chr ":" +> digits 2 2 +> opt CATEGORY_SPACE
                  +> IN (SET [ord "a"; ord "p"]) +> chr "m")
  +> star CATEGORY_SPACE +> chr "-" +> star CATEGORY_SPACE
  +> SUBPATTERN 3 (plus (NEGATE [ord ":"]))
  +> chr ":" +> star CATEGORY_SPACE
  +> SUBPATTERN 4 (star ANY)
  +> AT_END.

(** The tail of [pattern] from the message group on, and from the sender
    group on. *)
Definition message_part : regex := SUBPATTERN 4 (star ANY) +> AT_END.
Definition sender_part : regex :=
  SUBPATTERN 3 (plus (NEGATE [ord ":"])) +> chr ":" +> star CATEGORY_SPACE
  +> message_part.

(** One element of [messages]: the list [[date, time, sender, message]]. *)
Record row := Row { date : str; time : str; sender : str; message : str }.

(** [pattern.match(line)]: a str pattern refuses a bytes-like object. *)
Definition pattern_match_obj (line : object) : result (option marks) :=
  match line with
  | PyStr s => Return (pattern_match pattern s)
  | PyBytes _ => Raise TypeError
  end.

(** [messages[-1][3] += text] on a non-empty list. *)
Definition extend_last (messages : list row) (text : str) : list row :=
  alter (fun r => Row (date r) (time r) (sender r) (message r ++ text))
        (length messages - 1)%nat messages.

(** The body of [for line in chat_data:]. *)
Definition loop_body (messages : list row) (line : object)
  : result (list row) :=
  bind (try_except
          (bind (decode_utf8 line) (fun s => Return (PyStr (str_strip s))))
          (Return (obj_strip line)))
  (fun line =>
  bind (pattern_match_obj line) (fun match_ =>
  match match_ with
  | Some m =>
    Return (messages ++ [Row (group m 1) (group m 2) (group m 3) (group m 4)])
  | None =>
    match messages with
    | _ :: _ =>
      bind (space_plus (obj_strip line)) (fun text =>
      Return (extend_last messages text))
    | [] => Return messages
    end
  end)).

(** [messages = []] followed by the loop: the spec's [parse], before the
    data frame is built. *)
Definition parse (chat_data : list object) : result (list row) :=
  for_each loop_body [] chat_data.

(** The text of a line, when it has one: the code points of a [str], the
    decoding of a well-formed [bytes] line. *)
Definition raw_text (line : object) : option str :=
  match line with
  | PyStr s => Some s
  | PyBytes x => utf8_decode (map Byte.to_N x)
  end.

(** The trimmed line: the text the loop matches against [pattern]. *)
Definition line_text (line : object) : option str :=
  str_strip <$> raw_text line.

(** [pattern.match] on a text, as the four groups of [match.groups()]. *)
Definition header_match (t : str) : option row :=
  (fun m => Row (group m 1) (group m 2) (group m 3) (group m 4))
    <$> pattern_match pattern t.

(** What the loop does with a line: a header line starts a record, any
    other line with a text continues the last record. *)
Definition is_header (line : object) (r : row) : Prop :=
  exists t, line_text line = Some t /\ header_match t = Some r.

Definition is_continuation (line : object) (t : str) : Prop :=
  line_text line = Some t /\ header_match t = None.

(** The shape of a text that matches [pattern], with the four groups. *)
Definition all_in (p : charset) (w : str) : Prop :=
  forallb (charset_in p) w = true.

Inductive header_shape : str -> row -> Prop :=
| HeaderShape dd mo yy ws1 hh mi sp ap ws2 ws3 snd ws4 msg tail :
    all_in CATEGORY_DIGIT dd -> (1 <= length dd <= 2)%nat ->
    all_in CATEGORY_DIGIT mo -> (1 <= length mo <= 2)%nat ->
    all_in CATEGORY_DIGIT yy -> (2 <= length yy <= 4)%nat ->
    all_in CATEGORY_SPACE ws1 ->
    all_in CATEGORY_DIGIT hh -> (1 <= length hh <= 2)%nat ->
    all_in CATEGORY_DIGIT mi -> length mi = 2%nat ->
    all_in CATEGORY_SPACE sp -> (length sp <= 1)%nat ->
    charset_in (SET [ord "a"; ord "p"]) ap = true ->
    all_in CATEGORY_SPACE ws2 ->
    all_in CATEGORY_SPACE ws3 ->
    all_in (NEGATE [ord ":"]) snd -> (1 <= length snd)%nat ->
    all_in CATEGORY_SPACE ws4 ->
    all_in ANY msg ->
    tail = [] \/ tail = [0x0A] ->
    header_shape
      ((dd ++ ord "/" :: mo ++ ord "/" :: yy) ++ ord "," :: ws1
       ++ (hh ++ ord ":" :: mi ++ sp ++ [ap; ord "m"]) ++ ws2
       ++ ord "-" :: ws3 ++ snd ++ ord ":" :: ws4 ++ msg ++ tail)
      (Row (dd ++ ord "/" :: mo ++ ord "/" :: yy)
           (hh ++ ord ":" :: mi ++ sp ++ [ap; ord "m"])
           snd msg).

(** *** The data frame and the date normalisation

    [pd.to_datetime] belongs to pandas, not to this repository: it is a
    parameter.  It maps the column of date texts to a column of the same
    length whose cells are a timestamp or [NaT] (here [None]). *)
Section DataFrame.
Context {Timestamp : Type}.
Variable to_datetime : list str -> list (option Timestamp).

(** A row of [df] once the [date] column holds the normalised dates. *)
Record record := Record_ {
  parsed_date : option Timestamp;
  time_text : str;
  sender_name : str;
  message_text : str
}.

(** [df["date"] = column]: cell [i] of the column goes to row [i]. *)
Definition assign_date (df : list row) (column : list (option Timestamp))
  : list record :=
  zip_with (fun r d => Record_ d (time r) (sender r) (message r)) df column.

(** [df.dropna(subset=["date"], inplace=True)]. *)
Definition dropna_date (df : list record) : list record :=
  filter (fun r => is_Some (parsed_date r)) df.

(** Lines 47 to 49: build the frame, normalise the dates, drop [NaT]. *)
Definition normalize (messages : list row) : list record :=
  dropna_date (assign_date messages (to_datetime (date <$> messages))).

(** Row [i] of [messages] survives the pass as [out]: its date cell is a
    timestamp and the other three columns are untouched. *)
Definition kept_as (df : list row) (column : list (option Timestamp))
    (i : nat) (out : record) : Prop :=
  exists r ts, df !! i = Some r /\ column !! i = Some (Some ts)
    /\ out = Record_ (Some ts) (time r) (sender r) (message r).

End DataFrame.

End App.

(** ** Sample inputs *)

Module Scenario.
Import Py Sre App.

(** A line as [readlines()] yields it: the octets of the text and the
    newline. *)
Definition line (s : string) : object := PyBytes (b s ++ [x0a]).

(** The scenario of the specification. *)
Definition bob_hello : object := line "1/1/24, 10:00 am - Bob: Hello".
Definition how_are_you : object := line "How are you?".
Definition amy_good : object := line "1/1/24, 10:01 am - Amy: Good!".
Definition bob (text : string) : row :=
  Row (u "1/1/24") (u "10:00 am") (u "Bob") (u text).
Definition amy (text : string) : row :=
  Row (u "1/1/24") (u "10:01 am") (u "Amy") (u text).

(** The example of the input format, as a [str] line. *)
Definition asha_line : object :=
  PyStr (u "12/5/23, 9:42 pm - Asha: See you at night study").
Definition asha : row :=
  Row (u "12/5/23") (u "9:42 pm") (u "Asha") (u "See you at night study").

(** The banner that opens an export, and a whitespace-only line. *)
Definition banner : object :=
  line "Messages and calls are end-to-end encrypted.".
Definition blank : object := PyBytes [x20; x09; x0d; x0a].

(** [b"caf\xe9\n"]: Latin-1, not UTF-8. *)
Definition latin1 : bytes := [x63; x61; x66; xe9; x0a].

(** Header-like texts. *)
Definition no_marker : string := "1/1/24, 13:45 - Bob: hi".
Definition lower_marker : string := "1/1/24, 9:42 pm - Bob: hi".
Definition upper_marker : string := "1/1/24, 9:42 PM - Bob: hi".
Definition meeting : string := "1/1/24, 10:00 am - Bob: Meeting at 10:30".
Definition spaced_sender : string := "1/1/24, 10:00 am - Bob : hi".
Definition blank_sender : string := "1/1/24, 10:00 am -   : hi".

End Scenario.

(** ** More vocabulary for the loop *)

Module Records.
Import Py Sre App.

(** The record a line starts, when it is a header line. *)
Definition header_of (line : object) : option row :=
  line_text line ≫= header_match.

(** The header lines of an input, as the records they start. *)
Definition headers (chat_data : list object) : list row :=
  omap header_of chat_data.

(** [r'] is [r] after zero or more continuation lines: the same date, time
    and sender, and a message that begins with the message of [r]. *)
Definition continues (r r' : row) : Prop :=
  date r' = date r /\ time r' = time r /\ sender r' = sender r
  /\ message r `prefix_of` message r'.

(** A header line with the continuation lines that follow it, and the
    record they make together. *)
Definition block_lines (blk : object * list object) : list object :=
  blk.1 :: blk.2.

Definition block_record (rec : row * list str) : row :=
  Row (date rec.1) (time rec.1) (sender rec.1)
      (message rec.1 ++ concat (map (cons (ord " ")) rec.2)).

Definition is_block (blk : object * list object) (rec : row * list str)
  : Prop :=
  is_header blk.1 rec.1 /\ Forall2 is_continuation blk.2 rec.2.

(** The same line up to whitespace around its text. *)
Definition padded (line line' : object) : Prop :=
  exists s ws1 ws2,
    raw_text line = Some s /\ raw_text line' = Some (ws1 ++ s ++ ws2)
    /\ forallb Py_UNICODE_ISSPACE ws1 = true
    /\ forallb Py_UNICODE_ISSPACE ws2 = true.

(** The date, time and sender of a record as [pattern] cuts them. *)
Definition header_fields (r : row) : Prop :=
  (exists dd mo yy,
     date r = dd ++ ord "/" :: mo ++ ord "/" :: yy
     /\ all_in CATEGORY_DIGIT dd /\ (1 <= length dd <= 2)%nat
     /\ all_in CATEGORY_DIGIT mo /\ (1 <= length mo <= 2)%nat
     /\ all_in CATEGORY_DIGIT yy /\ (2 <= length yy <= 4)%nat)
  /\ (exists clock ap,
        time r = clock ++ [ap; ord "m"] /\ (ap = ord "a" \/ ap = ord "p"))
  /\ sender r <> [] /\ ord ":" ∉ sender r.

End Records.

(** ** Sections 4 to 6 of [app.py]: the side bar and the dashboards

    The parts of the dashboards that are plain Python or a pandas call
    with a fixed meaning; charts, sentiment scores and the spreadsheet are
    left to their libraries. *)

Module Dashboard.
Import Py Sre App.

(** The order of Python on [str]: code point by code point, a proper
    prefix before the longer text. *)
Fixpoint str_ltb (a c : str) : bool :=
  match a, c with
  | _, [] => false
  | [], _ :: _ => true
  | x :: a', y :: c' =>
    if x <? y then true else if y <? x then false else str_ltb a' c'
  end.

Definition str_lt (a c : str) : Prop := str_ltb a c = true.

(** [sorted(xs)]: a stable sort by [<].  The result of a stable sort is
    fixed by the input, so it is written here as an insertion sort. *)
Fixpoint insert_sorted (x : str) (l : list str) : list str :=
  match l with
  | [] => [x]
  | y :: l' => if str_ltb y x then y :: insert_sorted x l' else x :: l
  end.

Definition sorted (l : list str) : list str := foldr insert_sorted [] l.

(** [Series.unique()]: the distinct values in order of first appearance. *)
Fixpoint unique_from (seen : list str) (l : list str) : list str :=
  match l with
  | [] => []
  | x :: l' =>
    if bool_decide (x ∈ seen) then unique_from seen l'
    else x :: unique_from (x :: seen) l'
  end.

Definition unique (l : list str) : list str := unique_from [] l.

(** [Series.nunique()]. *)
Definition nunique (l : list str) : nat := length (unique l).


(** [Pattern.search(string)]: the first start position, from the left, at
    which the pattern matches. *)
Fixpoint search_from (r : regex) (pos : nat) (s : str) : option marks :=
  match rmatch r pos s ∅ (fun _ _ m => Some m) with
  | Some m => Some m
  | None =>
    match s with
    | [] => None
    | _ :: s' => search_from r (S pos) s'
    end
  end.

Definition pattern_search (r : regex) (s : str) : option marks :=
  search_from r 0 s.

(** A pattern text without special characters compiles to its characters
    in sequence. *)
Fixpoint literals (c : N) (cs : str) : regex :=
  match cs with
  | [] => LITERAL c
  | d :: cs' => SEQ (LITERAL c) (literals d cs')
  end.

(** The pattern of [str.contains("<Media omitted>", na=False)]: [regex] is
    true by default, the case is kept. *)
Definition media_pattern : regex := literals (ord "<") (u "Media omitted>").

Definition contains_media (message : str) : bool :=
  bool_decide (is_Some (pattern_search media_pattern message)).

Section Frame.
Context {Timestamp : Type}.
Implicit Types (df : list (@record Timestamp)).

(** [users = sorted(df["sender"].unique())]. *)
Definition users df : list str := sorted (unique (sender_name <$> df)).

(** The choices of the user select box: [["Overall"] + users]. *)
Definition user_choices df : list str := u "Overall" :: users df.

(** [df[mask]] for a mask computed row by row. *)
Definition where_ (mask : @record Timestamp -> bool) df : list record :=
  filter (fun r => mask r = true) df.

(** [frame[frame["sender"] == selected_user]]. *)
Definition by_sender (selected_user : str) df : list record :=
  where_ (fun r => bool_decide (sender_name r = selected_user)) df.

(** What the dashboard shows for a choice of the select box:
    [if selected_user == "Overall": ... else: ...]. *)
Inductive view :=
| GroupOverview
| UserAnalysis (selected_user : str).

Definition view_of (selected_user : str) : view :=
  if bool_decide (selected_user = u "Overall") then GroupOverview
  else UserAnalysis selected_user.

(** [total_media]: the sum of the boolean column. *)
Definition total_media df : nat :=
  length (filter (fun b => b = true) (contains_media <$> (message_text <$> df))).



End Frame.

End Dashboard.

(** ** Facts about the Python values *)

Module PyFacts.
Import Py.

Section Strip.
Context {A : Type} (sp : A -> bool).

Lemma lstrip_all (s : list A) : forallb sp s = true -> lstrip sp s = [].
Proof.
  induction s as [|c s IH]; simpl; [done|].
  intros [Hc Hs]%andb_true_iff. rewrite Hc. auto.
Qed.

Lemma lstrip_head (s : list A) c s' : lstrip sp s = c :: s' -> sp c = false.
Proof.
  induction s as [|d s IH]; simpl; [done|].
  destruct (sp d) eqn:Hd; [done|]. intros [= -> _]. done.
Qed.

Lemma lstrip_fixed (s : list A) :
  (forall c s', s = c :: s' -> sp c = false) -> lstrip sp s = s.
Proof.
  destruct s as [|c s]; simpl; [done|]. intros H. by rewrite (H c s).
Qed.

Lemma lstrip_suffix (s : list A) : exists w, s = w ++ lstrip sp s.
Proof.
  induction s as [|c s [w IH]]; simpl; [by exists []|].
  destruct (sp c); [|by exists []].
  exists (c :: w). simpl. by rewrite <- IH.
Qed.

(** What is left of a stripped text neither begins nor ends with a
    character of [sp]. *)
Lemma strip_head (s : list A) c s' : strip sp s = c :: s' -> sp c = false.
Proof.
  unfold strip, rstrip. intros H.
  destruct (lstrip_suffix (rev (lstrip sp s))) as [w Hw].
  apply (f_equal (@rev A)) in Hw. rewrite rev_involutive, rev_app_distr, H in Hw.
  destruct (lstrip sp s) as [|d l] eqn:Hl; [done|].
  simpl in Hw. injection Hw as -> _. by apply lstrip_head in Hl.
Qed.

Lemma strip_last (s : list A) w c : strip sp s = w ++ [c] -> sp c = false.
Proof.
  unfold strip, rstrip. intros H.
  apply (f_equal (@rev A)) in H. rewrite rev_involutive, rev_app_distr in H.
  simpl in H. by apply lstrip_head in H.
Qed.

Lemma strip_fixed (s : list A) :
  (forall c s', s = c :: s' -> sp c = false) ->
  (forall w c, s = w ++ [c] -> sp c = false) ->
  strip sp s = s.
Proof.
  intros Hh Hl. unfold strip, rstrip. rewrite (lstrip_fixed s Hh).
  rewrite lstrip_fixed; [apply rev_involutive|].
  intros c s' Hr. apply (Hl (rev s')).
  apply (f_equal (@rev A)) in Hr. by rewrite rev_involutive in Hr.
Qed.

(** [strip] is idempotent: the second [line.strip()] of the loop changes
    nothing. *)
Lemma strip_idemp (s : list A) : strip sp (strip sp s) = strip sp s.
Proof. apply strip_fixed; [apply strip_head | apply strip_last]. Qed.

Lemma strip_all (s : list A) : forallb sp s = true -> strip sp s = [].
Proof. intros H. unfold strip. by rewrite (lstrip_all s H). Qed.

End Strip.

Lemma bind_Return {A B} (a : A) (f : A -> result B) : bind (Return a) f = f a.
Proof. done. Qed.

(** A loop over [xs ++ ys] is the loop over [xs] followed by the loop over
    [ys] from the state reached. *)
Lemma for_each_app {S A} (body : S -> A -> result S) st xs ys :
  for_each body st (xs ++ ys)
  = bind (for_each body st xs) (fun st' => for_each body st' ys).
Proof.
  revert st. induction xs as [|x xs IH]; intros st; simpl; [done|].
  destruct (body st x); simpl; [apply IH | done].
Qed.

End PyFacts.

(** ** Facts about the matcher *)

Module SreFacts.
Import Py Sre.

Lemma within_pred n hi :
  has_room hi = true -> within n (Nat.pred <$> hi) -> within (S n) hi.
Proof.
  destruct hi as [h|]; simpl; [|done].
  destruct h; simpl; [done|lia].
Qed.

Lemma within_succ n hi :
  within (S n) hi -> has_room hi = true /\ within n (Nat.pred <$> hi).
Proof.
  destruct hi as [h|]; simpl; [|done].
  destruct h; simpl; [lia|]. split; [done|lia].
Qed.

Section Repeat.
Context {R : Type}.
Implicit Types (k : nat -> str -> option R) (p : charset).

Lemma admissible_cons p lo hi c s n :
  admissible p lo hi (c :: s) (S n) <->
  charset_in p c && has_room hi = true
  /\ admissible p (Nat.pred lo) (Nat.pred <$> hi) s n.
Proof.
  unfold admissible. simpl. split.
  - intros ([? ?] & [? ?]%within_succ & [? ?]%andb_true_iff).
    rewrite andb_true_iff. repeat split; auto; lia.
  - intros ([? ?]%andb_true_iff & [? ?] & ? & ?).
    rewrite andb_true_iff. repeat split; auto using within_pred; lia.
Qed.

(** When the repeat fails, every admissible stop has failed. *)
Lemma max_repeat_None p lo hi pos s k :
  max_repeat p lo hi pos s k = None ->
  forall n, admissible p lo hi s n -> k (pos + n)%nat (drop n s) = None.
Proof.
  revert lo hi pos. induction s as [|c s IH]; intros lo hi pos; simpl.
  - intros H n ([? ?] & _). simpl in *.
    assert (n = 0%nat) as -> by lia. assert (lo = 0%nat) as -> by lia.
    simpl in H. by rewrite Nat.add_0_r.
  - intros H [|n] Hn.
    + destruct Hn as ([? _] & _). assert (lo = 0%nat) as -> by lia.
      rewrite Nat.add_0_r. simpl in *.
      destruct (charset_in p c && has_room hi); [|done].
      by destruct (max_repeat _ _ _ _ _ _).
    + apply admissible_cons in Hn as [Hc Hn]. rewrite Hc in H.
      destruct (max_repeat p (Nat.pred lo) (Nat.pred <$> hi) (S pos) s k)
        eqn:Hin; [done|].
      rewrite <- Nat.add_succ_comm. simpl. by apply (IH _ _ _ Hin).
Qed.

(** When the repeat succeeds, it stopped at the longest admissible stop
    whose continuation succeeds: greedy, with backtracking. *)
Lemma max_repeat_Some p lo hi pos s k res :
  max_repeat p lo hi pos s k = Some res ->
  exists n, admissible p lo hi s n
    /\ k (pos + n)%nat (drop n s) = Some res
    /\ forall n', (n < n')%nat -> admissible p lo hi s n' ->
         k (pos + n')%nat (drop n' s) = None.
Proof.
  assert (Hstop : forall lo hi pos s,
    (if Nat.eqb lo 0 then k pos s else None) = Some res ->
    admissible p lo hi s 0 /\ k (pos + 0)%nat (drop 0 s) = Some res).
  { clear. intros lo hi pos s H. destruct (Nat.eqb_spec lo 0); [|done].
    subst. rewrite Nat.add_0_r. split; [|done].
    repeat split; simpl; try lia. destruct hi; simpl; lia. }
  revert lo hi pos. induction s as [|c s IH]; intros lo hi pos; simpl.
  - intros H. apply (Hstop _ hi) in H as [Ha Hk]. exists 0%nat. split; [done|]. split; [done|].
    intros n' ? ([_ ?] & _). simpl in *. lia.
  - destruct (charset_in p c && has_room hi) eqn:Hc.
    + destruct (max_repeat p (Nat.pred lo) (Nat.pred <$> hi) (S pos) s k)
        eqn:Hin.
      * intros [= ->]. apply IH in Hin as (n & Ha & Hk & Hmax).
        exists (S n). rewrite <- Nat.add_succ_comm. simpl.
        split; [by apply admissible_cons|]. split; [done|].
        intros [|n'] ? Ha'; [lia|]. apply admissible_cons in Ha' as [_ Ha'].
        rewrite <- Nat.add_succ_comm. simpl. apply Hmax; [lia|done].
      * intros H. apply (Hstop _ hi) in H as [Ha Hk]. exists 0%nat. split; [done|]. split; [done|].
        intros [|n'] ? Ha'; [lia|]. apply admissible_cons in Ha' as [_ Ha'].
        rewrite <- Nat.add_succ_comm. simpl.
        by apply (max_repeat_None _ _ _ _ _ _ Hin).
    + intros H. apply (Hstop _ hi) in H as [Ha Hk]. exists 0%nat. split; [done|]. split; [done|].
      intros [|n'] ? Ha'; [lia|]. apply admissible_cons in Ha' as [Hc' _].
      congruence.
Qed.

(** The repeat succeeds as soon as one admissible stop does. *)
Lemma max_repeat_is_Some p lo hi pos s k n :
  admissible p lo hi s n -> is_Some (k (pos + n)%nat (drop n s)) ->
  is_Some (max_repeat p lo hi pos s k).
Proof.
  intros Ha [res Hk].
  destruct (max_repeat p lo hi pos s k) eqn:H; [by eexists|].
  rewrite (max_repeat_None _ _ _ _ _ _ H n Ha) in Hk. done.
Qed.

End Repeat.

(** Soundness: a successful match consumed a text the pattern derives, and
    the continuation succeeded on what follows. *)
Lemma rmatch_sound r pos s m k res :
  rmatch r pos s m k = Some res ->
  exists w rest m', s = w ++ rest /\ derives r pos w rest m m'
    /\ k (pos + length w)%nat rest m' = Some res.
Proof.
  revert pos s m k res.
  induction r as [| |c|p|lo hi p|r1 IH1 r2 IH2|i r IH];
    intros pos s m k res; simpl.
  - destruct (Nat.eqb_spec pos 0) as [->|]; [|done]. intros H.
    exists [], s, m. repeat split; [constructor|done].
  - destruct s as [|c [|? ?]]; try done.
    + intros H. exists [], [], m. repeat split; [constructor|].
      by rewrite Nat.add_0_r.
    + destruct (N.eqb_spec c 0x0A) as [->|]; [|done]. intros H.
      exists [], [0x0A], m. repeat split; [constructor|].
      by rewrite Nat.add_0_r.
  - destruct s as [|c' s]; [done|].
    destruct (N.eqb_spec c' c) as [->|]; [|done]. intros H.
    exists [c], s, m. repeat split; [constructor|].
    simpl. by rewrite Nat.add_1_r.
  - destruct s as [|c s]; [done|].
    destruct (charset_in p c) eqn:Hc; [|done]. intros H.
    exists [c], s, m. repeat split; [by constructor|].
    simpl. by rewrite Nat.add_1_r.
  - intros (n & ([? ?] & ? & ?) & Hk & _)%max_repeat_Some.
    exists (take n s), (drop n s), m.
    assert (length (take n s) = n) as Hlen by (rewrite length_take; lia).
    split; [by rewrite take_drop|]. rewrite Hlen. split; [|done].
    constructor; rewrite ?Hlen; done.
  - intros (w1 & rest1 & m1 & -> & Hd1 & H2)%IH1.
    apply IH2 in H2 as (w2 & rest & m2 & -> & Hd2 & Hk).
    exists (w1 ++ w2), rest, m2. rewrite <- app_assoc. split; [done|].
    split; [by econstructor|]. by rewrite length_app, Nat.add_assoc.
  - intros (w & rest & m' & -> & Hd & Hk)%IH.
    exists w, rest, (<[i := w]> m'). split; [done|]. split; [by constructor|].
    replace (pos + length w - pos)%nat with (length w) in Hk by lia.
    by rewrite take_app_length in Hk.
Qed.

(** Completeness: when the pattern derives a prefix after which the
    continuation succeeds, the matcher succeeds (with this or with an
    alternative it tries earlier). *)
Lemma rmatch_complete r pos w rest m m' :
  derives r pos w rest m m' ->
  forall k, is_Some (k (pos + length w)%nat rest m') ->
  is_Some (rmatch r pos (w ++ rest) m k).
Proof.
  induction 1 as [rest m|pos m|pos m|c pos rest m|p c pos rest m Hc
                  |lo hi p pos w rest m ? ? ?
                  |r1 r2 pos w1 w2 rest m0 m1 m2 _ IH1 _ IH2
                  |i r pos w rest m0 m1 _ IH]; intros k Hk; simpl in *.
  - done.
  - by rewrite Nat.add_0_r in Hk.
  - by rewrite Nat.add_0_r in Hk.
  - rewrite N.eqb_refl. by rewrite Nat.add_1_r in Hk.
  - rewrite Hc. by rewrite Nat.add_1_r in Hk.
  - apply (max_repeat_is_Some _ _ _ _ _ _ (length w)).
    + repeat split; try done; rewrite ?length_app; try lia.
      by rewrite take_app_length.
    + by rewrite drop_app_length.
  - rewrite <- app_assoc. apply IH1, IH2.
    by rewrite length_app, Nat.add_assoc in Hk.
  - apply IH.
    replace (pos + length w - pos)%nat with (length w) by lia.
    by rewrite take_app_length.
Qed.

End SreFacts.

(** ** Facts about [pattern] and the loop *)

Module AppFacts.
Import Py Sre App PyFacts SreFacts.

(** Inversion of [derives], one pattern constructor at a time. *)
Lemma derives_seq_inv r1 r2 pos w rest m0 m2 :
  derives (SEQ r1 r2) pos w rest m0 m2 ->
  exists w1 w2 m1, w = w1 ++ w2 /\ derives r1 pos w1 (w2 ++ rest) m0 m1
    /\ derives r2 (pos + length w1) w2 rest m1 m2.
Proof. inversion 1; subst. eauto 7. Qed.

Lemma derives_sub_inv i r pos w rest m0 m2 :
  derives (SUBPATTERN i r) pos w rest m0 m2 ->
  exists m1, m2 = <[i := w]> m1 /\ derives r pos w rest m0 m1.
Proof. inversion 1; subst. eauto. Qed.

Lemma derives_lit_inv c pos w rest m0 m1 :
  derives (LITERAL c) pos w rest m0 m1 -> w = [c] /\ m1 = m0.
Proof. inversion 1; subst. done. Qed.

Lemma derives_in_inv p pos w rest m0 m1 :
  derives (IN p) pos w rest m0 m1 ->
  exists c, w = [c] /\ m1 = m0 /\ charset_in p c = true.
Proof. inversion 1; subst. eauto. Qed.

Lemma derives_rep_inv lo hi p pos w rest m0 m1 :
  derives (MAX_REPEAT lo hi p) pos w rest m0 m1 ->
  m1 = m0 /\ (lo <= length w)%nat /\ within (length w) hi /\ all_in p w.
Proof. inversion 1; subst. done. Qed.

Lemma derives_bol_inv pos w rest m0 m1 :
  derives AT_BEGINNING pos w rest m0 m1 -> w = [] /\ m1 = m0.
Proof. inversion 1; subst. done. Qed.

Lemma derives_eol_inv pos w rest m0 m1 :
  derives AT_END pos w rest m0 m1 ->
  w = [] /\ m1 = m0 /\ (rest = [] \/ rest = [0x0A]).
Proof. inversion 1; subst; auto. Qed.

Ltac invert_derives :=
  repeat match goal with
  | H : derives (SEQ _ _) _ _ _ _ _ |- _ =>
    apply derives_seq_inv in H as (? & ? & ? & -> & ? & H)
  | H : derives (SUBPATTERN _ _) _ _ _ _ _ |- _ =>
    apply derives_sub_inv in H as (? & -> & H)
  | H : derives (LITERAL _) _ _ _ _ _ |- _ =>
    apply derives_lit_inv in H as [-> ->]
  | H : derives (IN _) _ _ _ _ _ |- _ =>
    apply derives_in_inv in H as (? & -> & -> & ?)
  | H : derives (MAX_REPEAT _ _ _) _ _ _ _ _ |- _ =>
    apply derives_rep_inv in H as (-> & ? & ? & ?)
  | H : derives AT_BEGINNING _ _ _ _ _ |- _ =>
    apply derives_bol_inv in H as [-> ->]
  | H : derives AT_END _ _ _ _ _ |- _ =>
    apply derives_eol_inv in H as (-> & -> & ?)
  end.

Lemma group_insert_eq (m : marks) i w : group (<[i := w]> m) i = w.
Proof. unfold group. by rewrite lookup_insert_eq. Qed.

Lemma group_insert_ne (m : marks) i j w :
  i <> j -> group (<[i := w]> m) j = group m j.
Proof. intros. unfold group. by rewrite lookup_insert_ne. Qed.

(** A text that [pattern] matches has the header shape, and the groups are
    the parts of the text the shape names. *)
Lemma pattern_match_shape t m :
  pattern_match pattern t = Some m ->
  header_shape t (Row (group m 1) (group m 2) (group m 3) (group m 4)).
Proof.
  unfold pattern_match.
  intros (w & rest & m' & -> & Hd & [= <-])%rmatch_sound.
  unfold pattern, chr, digits, star, plus, opt in Hd.
  invert_derives.
  repeat (rewrite group_insert_eq || rewrite group_insert_ne by done).
  cbn [within] in *.
  match goal with
  | |- header_shape
         (([] ++ (?dd ++ _ ++ ?mo ++ _ ++ ?yy) ++ _ ++ ?ws1
           ++ (?hh ++ _ ++ ?mi ++ ?sp ++ [?ap] ++ _) ++ ?ws2 ++ _ ++ ?ws3
           ++ ?snd ++ _ ++ ?ws4 ++ ?msg ++ []) ++ ?tail) _ =>
    pose proof (HeaderShape dd mo yy ws1 hh mi sp ap ws2 ws3 snd ws4 msg tail)
      as HS
  end.
  rewrite ?app_nil_r.
  repeat first [rewrite <- app_assoc | progress cbn [app]].
  repeat first [rewrite <- app_assoc in HS | progress cbn [app] in HS].
  apply HS; auto; lia.
Qed.

(** Every group of [pattern] takes part in every match: [match.groups()]
    holds four texts, never [None]. *)
Lemma pattern_marks t m :
  pattern_match pattern t = Some m ->
  forall i, (1 <= i <= 4)%nat -> is_Some (m !! i).
Proof.
  unfold pattern_match.
  intros (w & rest & m' & -> & Hd & [= <-])%rmatch_sound i Hi.
  unfold pattern, chr, digits, star, plus, opt in Hd.
  invert_derives.
  destruct i as [|[|[|[|[|i]]]]]; try lia;
    repeat (rewrite lookup_insert_eq || rewrite lookup_insert_ne by done);
    eauto.
Qed.

Lemma header_match_shape t r : header_match t = Some r -> header_shape t r.
Proof.
  unfold header_match.
  destruct (pattern_match pattern t) as [m|] eqn:Hm; [|done].
  intros [= <-]. by apply pattern_match_shape.
Qed.

(** *** Greedy whitespace: where the sender and the message begin *)

Lemma rmatch_seq r1 r2 pos s m k :
  rmatch (SEQ r1 r2) pos s m k
  = rmatch r1 pos s m (fun pos' s' m' => rmatch r2 pos' s' m' k).
Proof. done. Qed.

Lemma rmatch_rep lo hi p pos s m k :
  rmatch (MAX_REPEAT lo hi p) pos s m k
  = max_repeat p lo hi pos s (fun pos' s' => k pos' s' m).
Proof. done. Qed.

Ltac peel H :=
  rewrite rmatch_seq in H;
  apply rmatch_sound in H as (? & ? & ? & -> & _ & H); cbn beta in H.

(** One more character of a repeat that is not bounded above. *)
Lemma admissible_next p (s : str) n c rest :
  admissible p 0 None s n -> drop n s = c :: rest -> charset_in p c = true ->
  admissible p 0 None s (S n) /\ drop (S n) s = rest.
Proof.
  intros ([_ Hn] & _ & Hall) Hdrop Hc.
  assert (s !! n = Some c) as Hlook.
  { assert (drop n s !! 0%nat = Some c) as H0 by (by rewrite Hdrop).
    by rewrite lookup_drop, Nat.add_0_r in H0. }
  pose proof (lookup_lt_Some _ _ _ Hlook).
  split.
  - repeat split; [lia|lia|].
    rewrite (take_S_r _ _ _ Hlook), forallb_app, Hall. simpl. by rewrite Hc.
  - rewrite (drop_S _ _ _ Hlook) in Hdrop. congruence.
Qed.

Lemma message_part_derives pos msg tail m :
  all_in ANY msg -> tail = [] \/ tail = [0x0A] ->
  derives message_part pos (msg ++ []) tail m (<[4%nat := msg]> m).
Proof.
  intros Hmsg Htail. unfold message_part.
  apply derives_seq with (m1 := <[4%nat := msg]> m);
    [|destruct Htail as [-> | ->]; constructor].
  constructor. constructor; simpl; auto with lia.
Qed.

Lemma sender_part_derives pos snd ws msg tail m :
  all_in (NEGATE [ord ":"]) snd -> (1 <= length snd)%nat ->
  all_in CATEGORY_SPACE ws -> all_in ANY msg -> tail = [] \/ tail = [0x0A] ->
  derives sender_part pos (snd ++ [ord ":"] ++ ws ++ msg ++ []) tail m
    (<[4%nat := msg]> (<[3%nat := snd]> m)).
Proof.
  intros Hsnd Hlen Hws Hmsg Htail. unfold sender_part.
  apply derives_seq with (m1 := <[3%nat := snd]> m);
    [by constructor; constructor|].
  apply derives_seq with (m1 := <[3%nat := snd]> m); [constructor|].
  apply derives_seq with (m1 := <[3%nat := snd]> m);
    [by constructor; simpl; auto with lia|].
  by apply message_part_derives.
Qed.

Lemma message_part_shape pos s m k res :
  rmatch message_part pos s m k = Some res ->
  exists msg tail, s = msg ++ tail /\ all_in ANY msg
    /\ (tail = [] \/ tail = [0x0A])
    /\ k (pos + length msg)%nat tail (<[4%nat := msg]> m) = Some res.
Proof.
  intros (w & tail & m' & -> & Hd & Hk)%rmatch_sound.
  unfold message_part, star in Hd. invert_derives.
  rewrite app_nil_r in *. eauto 7.
Qed.

Lemma sender_part_shape pos s m k res :
  rmatch sender_part pos s m k = Some res ->
  exists snd ws msg tail, s = snd ++ [ord ":"] ++ ws ++ msg ++ tail
    /\ all_in (NEGATE [ord ":"]) snd /\ (1 <= length snd)%nat
    /\ all_in CATEGORY_SPACE ws /\ all_in ANY msg
    /\ (tail = [] \/ tail = [0x0A])
    /\ k (pos + length (snd ++ [ord ":"] ++ ws ++ msg))%nat tail
          (<[4%nat := msg]> (<[3%nat := snd]> m)) = Some res.
Proof.
  intros (w & tail & m' & -> & Hd & Hk)%rmatch_sound.
  unfold sender_part, message_part, star, plus, chr in Hd. invert_derives.
  rewrite app_nil_r in *.
  match goal with
  | _ : all_in (NEGATE _) ?a, _ : all_in CATEGORY_SPACE ?b,
    _ : all_in ANY ?c |- _ => exists a, b, c, tail
  end.
  rewrite <- !app_assoc. repeat split; assumption || reflexivity.
Qed.

(** The whitespace run before the message group is as long as it can be:
    the message never begins with whitespace. *)
Lemma header_match_message_head t r c msg :
  header_match t = Some r -> message r = c :: msg ->
  Py_UNICODE_ISSPACE c = false.
Proof.
  unfold header_match, pattern_match.
  destruct (rmatch pattern _ _ _ _) as [res|] eqn:H; [|done].
  intros [= <-]. simpl.
  change pattern with
    (AT_BEGINNING
     +> SUBPATTERN 1 (digits 1 2 +> chr "/" +> digits 1 2 +> chr "/" +> digits 2 4)
     +> chr "," +> star CATEGORY_SPACE
     +> SUBPATTERN 2 (digits 1 2 +> chr ":" +> digits 2 2 +> opt CATEGORY_SPACE
                      +> IN (SET [ord "a"; ord "p"]) +> chr "m")
     +> star CATEGORY_SPACE +> chr "-" +> star CATEGORY_SPACE
     +> SUBPATTERN 3 (plus (NEGATE [ord ":"]))
     +> chr ":" +> star CATEGORY_SPACE +> message_part) in H.
  do 10 peel H.
  rewrite rmatch_seq in H. unfold star at 1 in H. rewrite rmatch_rep in H.
  apply max_repeat_Some in H as (n & Hn & Hk & Hmax).
  apply message_part_shape in Hk as (w & tail & Hs & Hw & Htail & [= <-]).
  rewrite group_insert_eq. intros ->.
  destruct (Py_UNICODE_ISSPACE c) eqn:Hc; [|done].
  destruct (admissible_next _ _ _ _ _ Hn Hs Hc) as [Hn' Hs'].
  specialize (Hmax (S n) (Nat.lt_succ_diag_r n) Hn'). cbn beta in Hmax.
  apply andb_true_iff in Hw as [_ Hw].
  match type of Hmax with
  | rmatch ?r ?p ?s ?m ?k = None =>
    assert (is_Some (rmatch r p s m k)) as [? Hyes]; [|congruence]
  end.
  rewrite Hs', <- (app_nil_r msg).
  eapply rmatch_complete; [by apply message_part_derives|done].
Qed.

(** The whitespace run before the sender group is as long as it can be
    too: a sender that begins with whitespace is a single whitespace
    character, given back because the group needs one character. *)
Lemma header_match_sender_head t r c snd :
  header_match t = Some r -> sender r = c :: snd ->
  Py_UNICODE_ISSPACE c = true -> snd = [].
Proof.
  unfold header_match, pattern_match.
  destruct (rmatch pattern _ _ _ _) as [res|] eqn:H; [|done].
  intros [= <-]. simpl.
  change pattern with
    (AT_BEGINNING
     +> SUBPATTERN 1 (digits 1 2 +> chr "/" +> digits 1 2 +> chr "/" +> digits 2 4)
     +> chr "," +> star CATEGORY_SPACE
     +> SUBPATTERN 2 (digits 1 2 +> chr ":" +> digits 2 2 +> opt CATEGORY_SPACE
                      +> IN (SET [ord "a"; ord "p"]) +> chr "m")
     +> star CATEGORY_SPACE +> chr "-" +> star CATEGORY_SPACE +> sender_part)
    in H.
  do 7 peel H.
  rewrite rmatch_seq in H. unfold star at 1 in H. rewrite rmatch_rep in H.
  match type of H with
  | max_repeat _ _ _ _ ?s _ = _ => set (txt := s) in *
  end.
  apply max_repeat_Some in H as (n & Hn & Hk & Hmax).
  apply sender_part_shape in Hk
    as (w & ws & msg & tail & Hs & Hw & Hlen & Hws & Hmsg & Htail & [= <-]).
  rewrite group_insert_ne, group_insert_eq by done. intros -> Hc.
  destruct snd as [|d snd]; [done|]. exfalso.
  destruct (admissible_next _ _ _ _ _ Hn Hs Hc) as [Hn' Hs'].
  specialize (Hmax (S n) (Nat.lt_succ_diag_r n) Hn'). cbn beta in Hmax.
  apply andb_true_iff in Hw as [_ Hw].
  match type of Hmax with
  | rmatch ?r ?p ?s ?m ?k = None =>
    assert (is_Some (rmatch r p s m k)) as [? Hyes]; [|congruence]
  end.
  change (drop (S n) txt = (d :: snd) ++ [ord ":"] ++ ws ++ msg ++ tail)
    in Hs'.
  rewrite Hs'.
  replace ((d :: snd) ++ [ord ":"] ++ ws ++ msg ++ tail)
    with (((d :: snd) ++ [ord ":"] ++ ws ++ msg ++ []) ++ tail)
    by (by rewrite <- !app_assoc).
  eapply rmatch_complete; [apply sender_part_derives; simpl; auto with lia|done].
Qed.

(** *** The loop body, case by case *)

Lemma extend_last_snoc messages r text :
  extend_last (messages ++ [r]) text
  = messages ++ [Row (date r) (time r) (sender r) (message r ++ text)].
Proof.
  unfold extend_last. rewrite length_app. simpl.
  replace (length messages + 1 - 1)%nat with (length messages + 0)%nat by lia.
  by rewrite alter_app_r.
Qed.

(** On a line that has a text, the body matches the trimmed text and either
    starts a record, continues the last one, or drops the line. *)
Lemma loop_body_text messages line t :
  line_text line = Some t ->
  loop_body messages line =
    match header_match t with
    | Some r => Return (messages ++ [r])
    | None =>
      match messages with
      | _ :: _ => Return (extend_last messages (ord " " :: t))
      | [] => Return messages
      end
    end.
Proof.
  intros Ht.
  assert (try_except
            (bind (decode_utf8 line) (fun s => Return (PyStr (str_strip s))))
            (Return (obj_strip line))
          = Return (PyStr t)) as Hprep.
  { destruct line as [x|s]; unfold line_text, raw_text, decode_utf8 in *.
    - destruct (utf8_decode _) as [s|]; [|done]. by injection Ht as <-.
    - by injection Ht as <-. }
  unfold loop_body. rewrite Hprep. unfold bind at 1.
  unfold pattern_match_obj, header_match, bind at 1.
  destruct (pattern_match pattern t) as [m|]; [done|].
  destruct messages as [|r0 messages]; [done|].
  unfold obj_strip, space_plus, bind.
  assert (str_strip t = t) as ->; [|done].
  destruct line as [x|s]; unfold line_text, raw_text in Ht.
  - destruct (utf8_decode _) as [s|]; [|done]. injection Ht as <-.
    apply strip_idemp.
  - injection Ht as <-. apply strip_idemp.
Qed.

Lemma loop_body_header messages line r :
  is_header line r -> loop_body messages line = Return (messages ++ [r]).
Proof. intros (t & Ht & Hr). by rewrite (loop_body_text _ _ _ Ht), Hr. Qed.

Lemma loop_body_continuation messages r line t :
  is_continuation line t ->
  loop_body (messages ++ [r]) line
  = Return (messages
            ++ [Row (date r) (time r) (sender r) (message r ++ ord " " :: t)]).
Proof.
  intros [Ht Hr]. rewrite (loop_body_text _ _ _ Ht), Hr.
  rewrite <- extend_last_snoc. by destruct messages.
Qed.

Lemma loop_body_discard line t :
  is_continuation line t -> loop_body [] line = Return [].
Proof. intros [Ht Hr]. by rewrite (loop_body_text _ _ _ Ht), Hr. Qed.

(** On a [bytes] line that is not well-formed UTF-8 the fallback keeps the
    [bytes] object, and [pattern.match] refuses it. *)
Lemma loop_body_undecodable messages x :
  utf8_decode (map Byte.to_N x) = None ->
  loop_body messages (PyBytes x) = Raise TypeError.
Proof. intros H. unfold loop_body, decode_utf8. by rewrite H. Qed.

Lemma parse_app pre rest :
  parse (pre ++ rest)
  = bind (parse pre) (fun messages => for_each loop_body messages rest).
Proof. apply for_each_app. Qed.

(** Continuation lines accumulate on the last record, in arrival order. *)
Lemma for_each_continuations messages r conts ts :
  Forall2 is_continuation conts ts ->
  for_each loop_body (messages ++ [r]) conts
  = Return (messages
            ++ [Row (date r) (time r) (sender r)
                    (message r ++ concat (map (cons (ord " ")) ts))]).
Proof.
  intros H. revert r. induction H as [|line t conts ts Hc _ IH]; intros r.
  - simpl. rewrite app_nil_r. by destruct r.
  - cbn [for_each]. rewrite (loop_body_continuation _ _ _ _ Hc), bind_Return.
    rewrite IH. cbn [date time sender message map concat].
    by rewrite <- app_assoc.
Qed.

Lemma for_each_headers messages chat_data rows :
  Forall2 is_header chat_data rows ->
  for_each loop_body messages chat_data = Return (messages ++ rows).
Proof.
  intros H. revert messages.
  induction H as [|line r chat_data rows Hh _ IH]; intros messages.
  - simpl. by rewrite app_nil_r.
  - cbn [for_each]. rewrite (loop_body_header _ _ _ Hh), bind_Return, IH.
    by rewrite <- app_assoc.
Qed.

Lemma for_each_discard pre :
  Forall (fun line => exists t, is_continuation line t) pre ->
  for_each loop_body [] pre = Return [].
Proof.
  induction 1 as [|line pre [t Hc] _ IH]; [done|].
  cbn [for_each]. by rewrite (loop_body_discard _ _ Hc), bind_Return.
Qed.

(** The loop returns as long as every line has a text: [str] lines and
    well-formed [bytes] lines never raise. *)
Lemma for_each_returns messages chat_data :
  Forall (fun line => is_Some (line_text line)) chat_data ->
  exists messages', for_each loop_body messages chat_data = Return messages'.
Proof.
  intros H. revert messages.
  induction H as [|line chat_data [t Ht] _ IH]; intros messages.
  - by exists messages.
  - cbn [for_each]. rewrite (loop_body_text _ _ _ Ht).
    destruct (header_match t); [apply IH|].
    destruct messages; apply IH.
Qed.

Lemma header_match_empty : header_match [] = None.
Proof. vm_compute. done. Qed.

End AppFacts.

(** ** Facts about the date pass *)

Module FrameFacts.
Import Py Sre App.

Section DataFrame.
Context {Timestamp : Type}.
Implicit Types (df : list row) (column : list (option Timestamp)).

Lemma kept_as_cons r d df column i out :
  kept_as (r :: df) (d :: column) (S i) out <-> kept_as df column i out.
Proof. done. Qed.

(** The rows that survive are those whose cell is a timestamp, in the order
    of the frame: [keep] lists their positions. *)
Lemma dropna_assign df column :
  exists keep : list nat,
    StronglySorted lt keep
    /\ (forall i, i ∈ keep <->
          exists r ts, df !! i = Some r /\ column !! i = Some (Some ts))
    /\ Forall2 (kept_as df column) keep (dropna_date (assign_date df column)).
Proof.
  revert column. induction df as [|r df IH]; intros column.
  { exists []. split; [constructor|]. split; [|constructor].
    intros i. split; [by intros ?%elem_of_nil|]. by intros (? & ? & ? & _). }
  destruct column as [|d column].
  { exists []. split; [constructor|]. split; [|constructor].
    intros i. split; [by intros ?%elem_of_nil|]. by intros (? & ? & _ & ?). }
  destruct (IH column) as (keep & Hsort & Hin & Hout).
  assert (StronglySorted lt (S <$> keep)) as Hsort'.
  { clear -Hsort. induction Hsort as [|i keep _ IH Hi]; [constructor|].
    rewrite fmap_cons. constructor; [done|]. rewrite Forall_fmap.
    eapply Forall_impl; [exact Hi|]. intros j Hj. simpl. lia. }
  assert (Forall2 (kept_as (r :: df) (d :: column)) (S <$> keep)
            (dropna_date (assign_date df column))) as Hout'.
  { rewrite Forall2_fmap_l. eapply Forall2_impl; [exact Hout|]. done. }
  assert (forall i, S i ∈ S <$> keep <->
            exists r' ts, df !! i = Some r' /\ column !! i = Some (Some ts))
    as Hin'.
  { intros i. rewrite <- Hin. rewrite list_elem_of_fmap. split.
    - by intros (j & [= ->] & ?).
    - eauto. }
  unfold dropna_date, assign_date in *. cbn [zip_with].
  destruct d as [ts|].
  - rewrite filter_cons_True by (simpl; eauto).
    exists (0%nat :: (S <$> keep)). split; [|split].
    + constructor; [done|]. rewrite Forall_fmap. apply Forall_true.
      intros j. simpl. lia.
    + intros [|i].
      * split; [eauto|]. intros _. left.
      * rewrite elem_of_cons. simpl. rewrite <- (Hin' i).
        split; [by intros [?|?]|by right].
    + constructor; [|done]. by exists r, ts.
  - rewrite filter_cons_False by (simpl; by intros [? ?]).
    exists (S <$> keep). split; [done|]. split; [|done].
    intros [|i]; [|exact (Hin' i)].
    rewrite list_elem_of_fmap. split; [by intros (? & ? & _)|].
    by intros (? & ? & _ & ?).
Qed.

End DataFrame.

End FrameFacts.

(** ** The header shape decides the match *)

Module ShapeFacts.
Import Py Sre App PyFacts SreFacts AppFacts.

(** The whitespace code points, one by one. *)
Lemma space_cases c :
  Py_UNICODE_ISSPACE c = true ->
  In c [0x09; 0x0A; 0x0B; 0x0C; 0x0D; 0x1C; 0x1D; 0x1E; 0x1F; 0x20; 0x85;
        0xA0; 0x1680; 0x2000; 0x2001; 0x2002; 0x2003; 0x2004; 0x2005;
        0x2006; 0x2007; 0x2008; 0x2009; 0x200A; 0x2028; 0x2029; 0x202F;
        0x205F; 0x3000].
Proof.
  unfold Py_UNICODE_ISSPACE.
  rewrite !orb_true_iff, !andb_true_iff, !N.leb_le, !N.eqb_eq.
  intros H. cbn [In]. lia.
Qed.

(** No decimal digit is whitespace. *)
Lemma decimal_not_space c :
  Py_UNICODE_ISDECIMAL c = true -> Py_UNICODE_ISSPACE c = false.
Proof.
  intros Hd. destruct (Py_UNICODE_ISSPACE c) eqn:Hs; [|done].
  apply space_cases in Hs.
  assert (forallb (fun v => negb (Py_UNICODE_ISDECIMAL v))
            [0x09; 0x0A; 0x0B; 0x0C; 0x0D; 0x1C; 0x1D; 0x1E; 0x1F; 0x20;
             0x85; 0xA0; 0x1680; 0x2000; 0x2001; 0x2002; 0x2003; 0x2004;
             0x2005; 0x2006; 0x2007; 0x2008; 0x2009; 0x200A; 0x2028; 0x2029;
             0x202F; 0x205F; 0x3000] = true) as Hall
    by (vm_compute; reflexivity).
  rewrite forallb_forall in Hall. apply Hall in Hs. by rewrite Hd in Hs.
Qed.

(** A run of characters of [p] that cannot go on into what follows it is
    fixed by the text. *)
Lemma span_unique (p : N -> bool) (a a' r r' : str) :
  a ++ r = a' ++ r' ->
  forallb p a = true -> forallb p a' = true ->
  (forall c s, r = c :: s -> p c = false) ->
  (forall c s, r' = c :: s -> p c = false) ->
  a = a' /\ r = r'.
Proof.
  revert a'. induction a as [|x a IH]; intros [|x' a']; simpl.
  - done.
  - intros -> _ [Hx _]%andb_true_iff Hr _. by rewrite (Hr x' _ eq_refl) in Hx.
  - intros <- [Hx _]%andb_true_iff _ _ Hr'. by rewrite (Hr' x _ eq_refl) in Hx.
  - intros [= <- Heq] [_ Ha]%andb_true_iff [_ Ha']%andb_true_iff Hr Hr'.
    destruct (IH a' Heq Ha Ha' Hr Hr') as [-> ->]. done.
Qed.

Ltac stop_at_literal := intros ? ? [= <- _]; reflexivity.

Lemma stop_at_digit p (w r : str) :
  all_in CATEGORY_DIGIT w -> (1 <= length w)%nat ->
  (forall c, Py_UNICODE_ISDECIMAL c = true -> p c = false) ->
  forall c s, w ++ r = c :: s -> p c = false.
Proof.
  destruct w as [|x w]; simpl; [lia|].
  intros [Hx _]%andb_true_iff _ Hp c s [= <- _]. by apply Hp.
Qed.

(** The date group and what follows it are fixed by the text. *)
Lemma date_unique dd mo yy R dd' mo' yy' R' :
  dd ++ ord "/" :: mo ++ ord "/" :: yy ++ ord "," :: R
  = dd' ++ ord "/" :: mo' ++ ord "/" :: yy' ++ ord "," :: R' ->
  all_in CATEGORY_DIGIT dd -> all_in CATEGORY_DIGIT mo ->
  all_in CATEGORY_DIGIT yy ->
  all_in CATEGORY_DIGIT dd' -> all_in CATEGORY_DIGIT mo' ->
  all_in CATEGORY_DIGIT yy' ->
  dd = dd' /\ mo = mo' /\ yy = yy' /\ R = R'.
Proof.
  intros Heq Hd Hm Hy Hd' Hm' Hy'.
  apply (span_unique (charset_in CATEGORY_DIGIT)) in Heq
    as [-> [= Heq]]; [|done|done|stop_at_literal|stop_at_literal].
  apply (span_unique (charset_in CATEGORY_DIGIT)) in Heq
    as [-> [= Heq]]; [|done|done|stop_at_literal|stop_at_literal].
  apply (span_unique (charset_in CATEGORY_DIGIT)) in Heq
    as [-> [= Heq]]; [|done|done|stop_at_literal|stop_at_literal].
  done.
Qed.

(** So are the whitespace before the time group, the time group and what
    follows it. *)
Lemma time_unique ws1 hh mi sp ap R ws1' hh' mi' sp' ap' R' :
  ws1 ++ hh ++ ord ":" :: mi ++ sp ++ ap :: ord "m" :: R
  = ws1' ++ hh' ++ ord ":" :: mi' ++ sp' ++ ap' :: ord "m" :: R' ->
  all_in CATEGORY_SPACE ws1 -> all_in CATEGORY_DIGIT hh ->
  (1 <= length hh)%nat -> length mi = 2%nat -> all_in CATEGORY_SPACE sp ->
  charset_in (SET [ord "a"; ord "p"]) ap = true ->
  all_in CATEGORY_SPACE ws1' -> all_in CATEGORY_DIGIT hh' ->
  (1 <= length hh')%nat -> length mi' = 2%nat -> all_in CATEGORY_SPACE sp' ->
  charset_in (SET [ord "a"; ord "p"]) ap' = true ->
  hh ++ ord ":" :: mi ++ sp ++ [ap; ord "m"]
  = hh' ++ ord ":" :: mi' ++ sp' ++ [ap'; ord "m"]
  /\ R = R'.
Proof.
  intros Heq Hw Hh Hlh Hlm Hs Hap Hw' Hh' Hlh' Hlm' Hs' Hap'.
  apply (span_unique (charset_in CATEGORY_SPACE)) in Heq as [_ Heq];
    [|done|done
     |apply stop_at_digit; auto using decimal_not_space
     |apply stop_at_digit; auto using decimal_not_space].
  apply (span_unique (charset_in CATEGORY_DIGIT)) in Heq
    as [-> [= Heq]]; [|done|done|stop_at_literal|stop_at_literal].
  destruct mi as [|m1 [|m2 [|? ?]]]; try done.
  destruct mi' as [|m1' [|m2' [|? ?]]]; try done.
  cbn [app] in Heq. injection Heq as -> -> Heq.
  assert (forall x, charset_in (SET [ord "a"; ord "p"]) x = true ->
                    Py_UNICODE_ISSPACE x = false) as Hmark.
  { intros x Hx. simpl in Hx. rewrite orb_false_r, orb_true_iff in Hx.
    destruct Hx as [->%N.eqb_eq| ->%N.eqb_eq]; reflexivity. }
  apply (span_unique (charset_in CATEGORY_SPACE)) in Heq
    as [-> [= -> Heq]]; [|done|done| |].
  - done.
  - intros ? ? [= <- _]. by apply Hmark.
  - intros ? ? [= <- _]. by apply Hmark.
Qed.

Lemma not_colon_head (snd R : str) :
  all_in (NEGATE [ord ":"]) snd ->
  forall c s, snd ++ ord ":" :: R = c :: s ->
  c = ord ":" -> snd = [].
Proof.
  destruct snd as [|x snd]; [done|]. simpl.
  intros [Hx _]%andb_true_iff c s [= <- _] ->. done.
Qed.

(** The sender group is fixed by the text: it begins at the first
    character after the dash that is not whitespace, or is the last
    whitespace character before the colon when there is no other, and it
    ends before the first colon. *)
Lemma sender_unique ws2 ws3 snd R ws2' ws3' snd' R' :
  ws2 ++ ord "-" :: ws3 ++ snd ++ ord ":" :: R
  = ws2' ++ ord "-" :: ws3' ++ snd' ++ ord ":" :: R' ->
  all_in CATEGORY_SPACE ws2 -> all_in CATEGORY_SPACE ws3 ->
  all_in (NEGATE [ord ":"]) snd -> (1 <= length snd)%nat ->
  (forall c s, snd = c :: s -> Py_UNICODE_ISSPACE c = true -> s = []) ->
  all_in CATEGORY_SPACE ws2' -> all_in CATEGORY_SPACE ws3' ->
  all_in (NEGATE [ord ":"]) snd' -> (1 <= length snd')%nat ->
  (forall c s, snd' = c :: s -> Py_UNICODE_ISSPACE c = true -> s = []) ->
  snd = snd' /\ R = R'.
Proof.
  intros Heq Hw2 Hw3 Hs Hl Hh Hw2' Hw3' Hs' Hl' Hh'.
  apply (span_unique (charset_in CATEGORY_SPACE)) in Heq
    as [_ [= Heq]]; [|done|done|stop_at_literal|stop_at_literal].
  assert (forall (w x y : str),
            all_in (NEGATE [ord ":"]) x -> all_in (NEGATE [ord ":"]) y ->
            x ++ ord ":" :: R = y ++ ord ":" :: R' -> x = y /\ R = R')
    as Hcolon.
  { intros _ x y Hx Hy Hxy.
    apply (span_unique (charset_in (NEGATE [ord ":"]))) in Hxy
      as [-> [= ->]]; [done|done|done|stop_at_literal|stop_at_literal]. }
  destruct snd as [|c s]; [simpl in Hl; lia|].
  destruct snd' as [|c' s']; [simpl in Hl'; lia|].
  destruct (Py_UNICODE_ISSPACE c) eqn:Hc, (Py_UNICODE_ISSPACE c') eqn:Hc'.
  - rewrite (Hh c s eq_refl Hc) in *. rewrite (Hh' c' s' eq_refl Hc') in *.
    change (ws3 ++ [c] ++ ord ":" :: R = ws3' ++ [c'] ++ ord ":" :: R') in Heq.
    rewrite !app_assoc in Heq.
    apply (span_unique (charset_in CATEGORY_SPACE)) in Heq as [Heq [= ->]];
      [|by rewrite forallb_app, Hw3; simpl; rewrite Hc
       |by rewrite forallb_app, Hw3'; simpl; rewrite Hc'
       |stop_at_literal|stop_at_literal].
    apply app_inj_tail in Heq as [_ ->]. done.
  - exfalso. rewrite (Hh c s eq_refl Hc) in *.
    change (ws3 ++ [c] ++ ord ":" :: R
            = ws3' ++ (c' :: s') ++ ord ":" :: R') in Heq.
    rewrite app_assoc in Heq.
    apply (span_unique (charset_in CATEGORY_SPACE)) in Heq as [_ Heq];
      [|by rewrite forallb_app, Hw3; simpl; rewrite Hc
       |done|stop_at_literal|by intros ? ? [= <- _]].
    by pose proof (not_colon_head (c' :: s') R' Hs' _ _ (eq_sym Heq) eq_refl).
  - exfalso. rewrite (Hh' c' s' eq_refl Hc') in *.
    change (ws3 ++ (c :: s) ++ ord ":" :: R
            = ws3' ++ [c'] ++ ord ":" :: R') in Heq.
    rewrite (app_assoc ws3') in Heq.
    apply (span_unique (charset_in CATEGORY_SPACE)) in Heq as [_ Heq];
      [|done
       |by rewrite forallb_app, Hw3'; simpl; rewrite Hc'
       |by intros ? ? [= <- _]|stop_at_literal].
    by pose proof (not_colon_head (c :: s) R Hs _ _ Heq eq_refl).
  - apply (span_unique (charset_in CATEGORY_SPACE)) in Heq as [_ Heq];
      [|done|done|by intros ? ? [= <- _]|by intros ? ? [= <- _]].
    by apply (Hcolon []).
Qed.

(** And so is the message group: all that follows the colon, less the
    whitespace in front and a closing newline. *)
Lemma message_unique ws4 msg tail ws4' msg' tail' :
  ws4 ++ msg ++ tail = ws4' ++ msg' ++ tail' ->
  all_in CATEGORY_SPACE ws4 -> all_in ANY msg ->
  (tail = [] \/ tail = [0x0A]) ->
  (forall c m, msg = c :: m -> Py_UNICODE_ISSPACE c = false) ->
  all_in CATEGORY_SPACE ws4' -> all_in ANY msg' ->
  (tail' = [] \/ tail' = [0x0A]) ->
  (forall c m, msg' = c :: m -> Py_UNICODE_ISSPACE c = false) ->
  msg = msg'.
Proof.
  intros Heq Hw Hm Ht Hh Hw' Hm' Ht' Hh'.
  assert (forall tl, tl = [] \/ tl = [0x0A] ->
                     forallb Py_UNICODE_ISSPACE tl = true) as Htl
    by (by intros ? [-> | ->]).
  assert (forall tl, tl = [] \/ tl = [0x0A] ->
            forall c s, tl = c :: s -> charset_in ANY c = false) as Hnl
    by (intros ? [-> | ->] ? ?; [done|by intros [= <- _]]).
  assert (forall (w w' m tl tl' : str) c,
            w ++ (c :: m) ++ tl = w' ++ tl' ->
            Py_UNICODE_ISSPACE c = false ->
            forallb Py_UNICODE_ISSPACE w' = true ->
            forallb Py_UNICODE_ISSPACE tl' = true -> False) as Hmix.
  { intros w w' m tl tl' c Hx Hc Hw0 Htl0.
    assert (forallb Py_UNICODE_ISSPACE (w ++ (c :: m) ++ tl) = true) as Hall
      by (by rewrite Hx, forallb_app, Hw0, Htl0).
    rewrite !forallb_app in Hall. simpl in Hall. rewrite Hc in Hall.
    by rewrite andb_false_r in Hall. }
  destruct msg as [|c m], msg' as [|c' m']; [done| | |].
  - exfalso. symmetry in Heq.
    eapply (Hmix ws4' ws4 m' tail' tail c'); eauto.
  - exfalso. eapply (Hmix ws4 ws4' m tail tail' c); eauto.
  - apply (span_unique (charset_in CATEGORY_SPACE)) in Heq as [_ Heq];
      [|done|done|intros ? ? [= <- _]; eauto|intros ? ? [= <- _]; eauto].
    apply (span_unique (charset_in ANY)) in Heq as [-> _]; eauto.
Qed.

(** A text has at most one reading of the header shape in which the
    whitespace before the sender and before the message is as long as it can
    be. *)
Lemma header_shape_unique t r r' :
  header_shape t r -> header_shape t r' ->
  (forall c s, sender r = c :: s -> Py_UNICODE_ISSPACE c = true -> s = []) ->
  (forall c m, message r = c :: m -> Py_UNICODE_ISSPACE c = false) ->
  (forall c s, sender r' = c :: s -> Py_UNICODE_ISSPACE c = true -> s = []) ->
  (forall c m, message r' = c :: m -> Py_UNICODE_ISSPACE c = false) ->
  r = r'.
Proof.
  intros H H'. revert H'. destruct H. intros H'.
  match type of H' with header_shape ?big _ => remember big as t eqn:Ht end.
  destruct H'. cbn [sender message]. intros Hs Hm Hs' Hm'.
  repeat first [rewrite <- app_assoc in Ht | progress cbn [app] in Ht].
  apply date_unique in Ht as (-> & -> & -> & Ht); try done.
  apply time_unique in Ht as (-> & Ht); try done; try lia.
  apply sender_unique in Ht as (-> & [= Ht]); try done; try lia.
  apply message_unique in Ht as ->; done.
Qed.

Ltac derive_step :=
  first
    [ eapply derives_seq
    | eapply derives_sub
    | apply derives_lit
    | apply derives_in; assumption
    | apply derives_bol
    | apply derives_rep; [cbn [length]; lia | cbn [within]; lia || exact I
                         | assumption] ].

(** Every text of the header shape is matched. *)
Lemma header_shape_matches t r :
  header_shape t r -> is_Some (header_match t).
Proof.
  destruct 1. unfold header_match, pattern_match.
  match goal with
  | |- is_Some (_ <$> ?x) => assert (is_Some x) as [? ->]; [|by eexists]
  end.
  change pattern with
    (AT_BEGINNING
     +> SUBPATTERN 1 (digits 1 2 +> chr "/" +> digits 1 2 +> chr "/" +> digits 2 4)
     +> chr "," +> star CATEGORY_SPACE
     +> SUBPATTERN 2 (digits 1 2 +> chr ":" +> digits 2 2 +> opt CATEGORY_SPACE
                      +> IN (SET [ord "a"; ord "p"]) +> chr "m")
     +> star CATEGORY_SPACE +> chr "-" +> star CATEGORY_SPACE +> sender_part).
  unfold chr, digits, star, opt.
  match goal with
  | |- is_Some (rmatch _ _ ?text _ _) =>
    replace text with
      (([] ++ (dd ++ [ord "/"] ++ mo ++ [ord "/"] ++ yy) ++ [ord ","] ++ ws1
        ++ (hh ++ [ord ":"] ++ mi ++ sp ++ [ap] ++ [ord "m"]) ++ ws2
        ++ [ord "-"] ++ ws3 ++ (snd ++ [ord ":"] ++ ws4 ++ msg ++ []))
       ++ tail)
  end.
  2: { rewrite ?app_nil_r.
       repeat first [rewrite <- app_assoc | progress cbn [app]]. done. }
  eapply rmatch_complete; [|by eexists].
  repeat derive_step.
  match goal with
  | H : tail = [] \/ tail = _ |- _ => destruct H as [-> | ->]; constructor
  end.
Qed.

End ShapeFacts.

(** ** The properties of the parser *)

Import Py Sre App PyFacts SreFacts AppFacts ShapeFacts FrameFacts Scenario.

(** The parts of a header line outside the groups, read off its shape. *)
Lemma header_shape_parts t r :
  header_shape t r ->
  exists ws1 ws2 ws3 ws4 tail,
    t = date r ++ ord "," :: ws1 ++ time r ++ ws2 ++ ord "-" :: ws3
        ++ sender r ++ ord ":" :: ws4 ++ message r ++ tail
    /\ all_in CATEGORY_SPACE ws1 /\ all_in CATEGORY_SPACE ws2
    /\ all_in CATEGORY_SPACE ws3 /\ all_in CATEGORY_SPACE ws4
    /\ (tail = [] \/ tail = [0x0A]).
Proof.
  destruct 1. cbn [date time sender message].
  eexists _, _, _, _, _. split; [reflexivity|]. auto 10.
Qed.

Lemma marker_letter ap :
  charset_in (SET [ord "a"; ord "p"]) ap = true -> ap = ord "a" \/ ap = ord "p".
Proof.
  simpl. rewrite orb_false_r, orb_true_iff.
  intros [?%N.eqb_eq| ?%N.eqb_eq]; auto.
Qed.

Lemma all_in_not_colon snd : all_in (NEGATE [ord ":"]) snd -> ord ":" ∉ snd.
Proof.
  unfold all_in. induction snd as [|c snd IH]; simpl.
  - intros _ ?%elem_of_nil. done.
  - rewrite orb_false_r. intros [Hc Hs]%andb_true_iff.
    intros [<-|?]%elem_of_cons; [|by apply IH].
    by rewrite N.eqb_refl in Hc.
Qed.

Lemma line_text_stripped line t :
  line_text line = Some t -> exists s, t = str_strip s.
Proof.
  unfold line_text. destruct (raw_text line) as [s|]; [|done].
  intros [= <-]. eauto.
Qed.

(** C1.  A line that has a text, does not match the header pattern and
    comes after at least one record is appended to the message of the last
    record, as one space followed by the trimmed text.  Consecutive
    continuation lines accumulate in arrival order, each with its own
    space, none dropped; the loop then goes on from that state.  (The
    scenario of the specification, Bob's "Hello" continued by
    "How are you?" and followed by Amy's line, is the instance below.) *)
Theorem continuation_lines_are_appended
    (pre conts rest : list object) (ts : list str)
    (messages : list row) (r : row) :
  parse pre = Return (messages ++ [r]) ->
  Forall2 is_continuation conts ts ->
  parse (pre ++ conts ++ rest)
  = for_each loop_body
      (messages ++ [Row (date r) (time r) (sender r)
                        (message r ++ concat (map (cons (ord " ")) ts))])
      rest.
Proof.
  intros Hpre Hconts.
  rewrite parse_app, Hpre, bind_Return, for_each_app.
  by rewrite (for_each_continuations _ _ _ _ Hconts), bind_Return.
Qed.

(** The scenario of the specification, through C1: two records, Bob's
    with the continuation appended, then Amy's. *)
Lemma continuation_lines_are_appended_witness :
  parse [bob_hello] = Return ([] ++ [bob "Hello"])
  /\ Forall2 is_continuation [how_are_you] [u "How are you?"]
  /\ parse ([bob_hello] ++ [how_are_you] ++ [amy_good])
     = Return [bob "Hello How are you?"; amy "Good!"].
Proof.
  assert (parse [bob_hello] = Return ([] ++ [bob "Hello"])) as H1
    by (vm_compute; reflexivity).
  assert (Forall2 is_continuation [how_are_you] [u "How are you?"]) as H2
    by (repeat constructor; vm_compute; reflexivity).
  split; [exact H1|]. split; [exact H2|].
  rewrite (continuation_lines_are_appended
             [bob_hello] [how_are_you] [amy_good] _ [] _ H1 H2).
  vm_compute. reflexivity.
Defined.

(** Five continuation lines in a row, the same text twice among them: all
    are kept, in order. *)
Example five_continuations :
  parse [bob_hello; how_are_you; how_are_you; line "a"; line "b"; line "c"]
  = Return [bob "Hello How are you? How are you? a b c"].
Proof. vm_compute. reflexivity. Qed.

(** C2.  When every line of the input matches the header pattern, the
    parse returns exactly one record per line, the record of line [i] at
    position [i]: the records are in the order of their header lines. *)
Theorem header_lines_give_one_record_each
    (chat_data : list object) (rows : list row) :
  Forall2 is_header chat_data rows ->
  parse chat_data = Return rows /\ length rows = length chat_data.
Proof.
  intros H. split.
  - unfold parse. by rewrite (for_each_headers [] _ _ H).
  - symmetry. by eapply Forall2_length.
Qed.

Lemma header_lines_give_one_record_each_witness :
  Forall2 is_header [asha_line; bob_hello; amy_good]
                    [asha; bob "Hello"; amy "Good!"]
  /\ parse [asha_line; bob_hello; amy_good]
     = Return [asha; bob "Hello"; amy "Good!"]
  /\ length [asha; bob "Hello"; amy "Good!"]
     = length [asha_line; bob_hello; amy_good].
Proof.
  assert (Forall2 is_header [asha_line; bob_hello; amy_good]
                            [asha; bob "Hello"; amy "Good!"]) as H.
  { repeat constructor.
    - exists (u "12/5/23, 9:42 pm - Asha: See you at night study").
      split; vm_compute; reflexivity.
    - exists (u "1/1/24, 10:00 am - Bob: Hello").
      split; vm_compute; reflexivity.
    - exists (u "1/1/24, 10:01 am - Amy: Good!").
      split; vm_compute; reflexivity. }
  split; [exact H|].
  exact (header_lines_give_one_record_each _ _ H).
Defined.

(** C3.  The parse does raise on a line that is not well-formed UTF-8:
    the fallback keeps the line as a [bytes] object, and matching the str
    pattern against it is a [TypeError] that nothing catches, whatever came
    before and whatever follows. *)
Theorem undecodable_line_raises
    (pre rest : list object) (messages : list row) (x : bytes) :
  parse pre = Return messages ->
  utf8_decode (map Byte.to_N x) = None ->
  parse (pre ++ PyBytes x :: rest) = Raise TypeError.
Proof.
  intros Hpre Hx. rewrite parse_app, Hpre, bind_Return. cbn [for_each].
  by rewrite (loop_body_undecodable _ _ Hx).
Qed.

Lemma undecodable_line_raises_witness :
  parse [bob_hello] = Return [bob "Hello"]
  /\ utf8_decode (map Byte.to_N latin1) = None
  /\ parse ([bob_hello] ++ PyBytes latin1 :: [amy_good]) = Raise TypeError.
Proof.
  assert (parse [bob_hello] = Return [bob "Hello"]) as H1
    by (vm_compute; reflexivity).
  assert (utf8_decode (map Byte.to_N latin1) = None) as H2
    by (vm_compute; reflexivity).
  split; [exact H1|]. split; [exact H2|].
  exact (undecodable_line_raises [bob_hello] [amy_good] _ latin1 H1 H2).
Defined.

(** A [str] line takes the same fallback and is parsed: it is the [bytes]
    object that the pattern refuses. *)
Example undecodable_alone : parse [PyBytes latin1] = Raise TypeError.
Proof. vm_compute. reflexivity. Qed.

(** C4 does not hold as the specification states it: a header-like line
    with a 24-hour time and no marker does not match, and the parse of that
    line alone has no record. *)
Lemma no_marker_is_no_header :
  header_match (u no_marker) = None /\ parse [line no_marker] = Return [].
Proof. split; vm_compute; reflexivity. Qed.

(** C4 (as the code has it).  The am/pm marker is not optional: in every
    text that matches the header pattern, the time group is one or two
    digits, a colon, two digits, at most one whitespace character, and then
    [a] or [p] followed by [m]; it sits between the comma and the dash of
    the line.  A line whose time has no marker therefore matches nothing
    and starts no record. *)
Theorem header_time_has_marker (t : str) (r : row) :
  header_match t = Some r ->
  exists hh mi sp ap ws after,
    time r = hh ++ ord ":" :: mi ++ sp ++ [ap; ord "m"]
    /\ t = date r ++ ord "," :: ws ++ time r ++ after
    /\ all_in CATEGORY_DIGIT hh /\ (1 <= length hh <= 2)%nat
    /\ all_in CATEGORY_DIGIT mi /\ length mi = 2%nat
    /\ all_in CATEGORY_SPACE sp /\ (length sp <= 1)%nat
    /\ (ap = ord "a" \/ ap = ord "p")
    /\ all_in CATEGORY_SPACE ws.
Proof.
  intros H%header_match_shape. destruct H. cbn [date time].
  eexists hh, mi, sp, ap, ws1, _. split; [reflexivity|].
  split; [reflexivity|]. auto 10 using marker_letter.
Qed.

Lemma header_time_has_marker_witness :
  header_match (u lower_marker)
    = Some (Row (u "1/1/24") (u "9:42 pm") (u "Bob") (u "hi"))
  /\ exists hh mi sp ap ws after,
       u "9:42 pm" = hh ++ ord ":" :: mi ++ sp ++ [ap; ord "m"]
       /\ u lower_marker = u "1/1/24" ++ ord "," :: ws ++ u "9:42 pm" ++ after
       /\ all_in CATEGORY_DIGIT hh /\ (1 <= length hh <= 2)%nat
       /\ all_in CATEGORY_DIGIT mi /\ length mi = 2%nat
       /\ all_in CATEGORY_SPACE sp /\ (length sp <= 1)%nat
       /\ (ap = ord "a" \/ ap = ord "p")
       /\ all_in CATEGORY_SPACE ws.
Proof.
  assert (header_match (u lower_marker)
          = Some (Row (u "1/1/24") (u "9:42 pm") (u "Bob") (u "hi"))) as H
    by (vm_compute; reflexivity).
  split; [exact H|]. exact (header_time_has_marker _ _ H).
Defined.

(** C5 does not hold as the specification states it: the line with [pm]
    matches, the same line with [PM] does not and gives no record. *)
Lemma upper_case_marker_is_no_header :
  header_match (u lower_marker)
    = Some (Row (u "1/1/24") (u "9:42 pm") (u "Bob") (u "hi"))
  /\ header_match (u upper_marker) = None
  /\ parse [line upper_marker] = Return [].
Proof. repeat split; vm_compute; reflexivity. Qed.

(** C5 (as the code has it).  The marker is matched as written in the
    pattern, in lower case only: the time group of every match ends with
    the code points of [am] or of [pm]. *)
Theorem header_marker_is_lower_case (t : str) (r : row) :
  header_match t = Some r ->
  exists clock, time r = clock ++ u "am" \/ time r = clock ++ u "pm".
Proof.
  intros H%header_match_shape. destruct H. cbn [time].
  exists (hh ++ ord ":" :: mi ++ sp).
  match goal with
  | H : charset_in (SET _) _ = true |- _ =>
    apply marker_letter in H as [-> | ->]
  end;
    [left|right]; rewrite <- !app_assoc; cbn [app]; by rewrite <- !app_assoc.
Qed.

Lemma header_marker_is_lower_case_witness :
  header_match (u lower_marker)
    = Some (Row (u "1/1/24") (u "9:42 pm") (u "Bob") (u "hi"))
  /\ exists clock, u "9:42 pm" = clock ++ u "am"
                   \/ u "9:42 pm" = clock ++ u "pm".
Proof.
  assert (header_match (u lower_marker)
          = Some (Row (u "1/1/24") (u "9:42 pm") (u "Bob") (u "hi"))) as H
    by (vm_compute; reflexivity).
  split; [exact H|]. exact (header_marker_is_lower_case _ _ H).
Defined.

(** C6.  A text matches the header pattern, with the groups [r], exactly
    when it reads as: the date, a comma, whitespace, the time, whitespace, a
    dash, whitespace, the sender, a colon, whitespace, the message (and at
    most a closing newline), where the sender holds no colon, the date and
    the time have their digits and marker, and the whitespace in front of
    the sender and of the message is as long as it can be.  So the sender
    runs from the first character after the dash that is not whitespace to
    the first colon after it, and everything behind that colon, further
    colons included, is the message: no later colon is ever the boundary. *)
Theorem first_colon_ends_the_sender (t : str) (r : row) :
  header_match t = Some r <->
  header_shape t r
  /\ (forall c snd,
        sender r = c :: snd -> Py_UNICODE_ISSPACE c = true -> snd = [])
  /\ (forall c msg, message r = c :: msg -> Py_UNICODE_ISSPACE c = false).
Proof.
  split.
  - intros H. split; [by apply header_match_shape|]. split.
    + intros c snd. by apply header_match_sender_head with (t := t).
    + intros c msg. by apply header_match_message_head with (t := t).
  - intros (Hshape & Hsnd & Hmsg).
    destruct (header_shape_matches _ _ Hshape) as [r' Hr'].
    rewrite Hr'. f_equal. symmetry.
    apply (header_shape_unique t r r'); try done.
    + by apply header_match_shape.
    + intros c snd. by apply header_match_sender_head with (t := t).
    + intros c msg. by apply header_match_message_head with (t := t).
Qed.

(** The scenario of the specification, through C6: read with the sender
    [Bob] before the first colon, the line has the header shape, so [Bob]
    and the message with its colon are what the match returns. *)
Lemma first_colon_ends_the_sender_witness :
  (header_shape (u meeting) (bob "Meeting at 10:30")
   /\ (forall c snd,
         u "Bob" = c :: snd -> Py_UNICODE_ISSPACE c = true -> snd = [])
   /\ (forall c msg,
         u "Meeting at 10:30" = c :: msg -> Py_UNICODE_ISSPACE c = false))
  /\ header_match (u meeting) = Some (bob "Meeting at 10:30").
Proof.
  assert (header_shape (u meeting) (bob "Meeting at 10:30")
          /\ (forall c snd,
                u "Bob" = c :: snd -> Py_UNICODE_ISSPACE c = true -> snd = [])
          /\ (forall c msg,
                u "Meeting at 10:30" = c :: msg ->
                Py_UNICODE_ISSPACE c = false)) as H.
  { split; [|split].
    - apply (HeaderShape (u "1") (u "1") (u "24") (u " ") (u "10") (u "00")
               (u " ") (ord "a") (u " ") (u " ") (u "Bob") (u " ")
               (u "Meeting at 10:30") []);
        first [reflexivity | by left | (simpl; lia)].
    - intros c snd [= <- <-]. vm_compute. discriminate.
    - intros c msg [= <- <-]. vm_compute. reflexivity. }
  split; [exact H|].
  exact (proj2 (first_colon_ends_the_sender _ _) H).
Defined.

Example meeting_record : parse [line meeting] = Return [bob "Meeting at 10:30"].
Proof. vm_compute. reflexivity. Qed.

(** C8 does not hold as the specification states it: the sender keeps the
    whitespace before its colon, and a sender of whitespace alone is kept
    as one whitespace character, empty once trimmed. *)
Lemma sender_is_not_trimmed :
  parse [line spaced_sender]
    = Return [Row (u "1/1/24") (u "10:00 am") (u "Bob ") (u "hi")]
  /\ str_strip (u "Bob ") <> u "Bob "
  /\ parse [line blank_sender]
     = Return [Row (u "1/1/24") (u "10:00 am") (u " ") (u "hi")]
  /\ str_strip (u " ") = [].
Proof.
  split; [vm_compute; reflexivity|]. split; [by vm_compute|].
  split; vm_compute; reflexivity.
Qed.

(** C8 (as the code has it).  A single header line gives a single record
    whose four fields are the four groups of the match, which are parts of
    the trimmed line.  The message is trimmed.  The sender is not: it is
    not empty and holds no colon, and leading whitespace is left to it only
    when it is one whitespace character; trailing whitespace stays. *)
Theorem single_header_line_record (line : object) (r : row) :
  is_header line r ->
  parse [line] = Return [r]
  /\ (exists t ws1 ws2 ws3 ws4,
        line_text line = Some t
        /\ t = date r ++ ord "," :: ws1 ++ time r ++ ws2 ++ ord "-" :: ws3
               ++ sender r ++ ord ":" :: ws4 ++ message r)
  /\ str_strip (message r) = message r
  /\ sender r <> []
  /\ (ord ":" ∉ sender r)
  /\ (forall c snd, sender r = c :: snd ->
        Py_UNICODE_ISSPACE c = true -> snd = []).
Proof.
  intros Hh. pose proof Hh as (t & Ht & Hr).
  split; [unfold parse; by rewrite (for_each_headers [] [line] [r]) by (by repeat constructor)|].
  pose proof (header_match_shape _ _ Hr) as Hshape.
  assert (sender r <> [] /\ (ord ":" ∉ sender r)) as [Hne Hcolon].
  { destruct Hshape. cbn [sender]. split; [|by apply all_in_not_colon].
    intros ->. simpl in *. lia. }
  destruct (header_shape_parts _ _ Hshape)
    as (ws1 & ws2 & ws3 & ws4 & tail & Heq & _ & _ & _ & _ & Htail).
  destruct (line_text_stripped _ _ Ht) as [s Hs].
  assert (tail = []) as ->.
  { destruct Htail as [->| ->]; [done|]. exfalso.
    rewrite Hs in Heq. rewrite !app_comm_cons, !app_assoc in Heq.
    apply strip_last in Heq. done. }
  rewrite app_nil_r in Heq.
  split; [by exists t, ws1, ws2, ws3, ws4|].
  split; [|split; [done|split; [done|]]].
  - apply strip_fixed.
    + intros c msg Hm. by apply (header_match_message_head _ _ _ _ Hr Hm).
    + intros w c Hm. rewrite Hs, Hm in Heq.
      rewrite !app_comm_cons, !app_assoc in Heq.
      by apply strip_last in Heq.
  - intros c snd. by apply header_match_sender_head with (t := t).
Qed.

Lemma single_header_line_record_witness :
  is_header (line spaced_sender)
    (Row (u "1/1/24") (u "10:00 am") (u "Bob ") (u "hi"))
  /\ parse [line spaced_sender]
     = Return [Row (u "1/1/24") (u "10:00 am") (u "Bob ") (u "hi")]
  /\ (exists t ws1 ws2 ws3 ws4,
        line_text (line spaced_sender) = Some t
        /\ t = u "1/1/24" ++ ord "," :: ws1 ++ u "10:00 am" ++ ws2
               ++ ord "-" :: ws3 ++ u "Bob " ++ ord ":" :: ws4 ++ u "hi")
  /\ str_strip (u "hi") = u "hi"
  /\ u "Bob " <> []
  /\ (ord ":" ∉ u "Bob ")
  /\ (forall c snd, u "Bob " = c :: snd ->
        Py_UNICODE_ISSPACE c = true -> snd = []).
Proof.
  assert (is_header (line spaced_sender)
            (Row (u "1/1/24") (u "10:00 am") (u "Bob ") (u "hi"))) as H.
  { exists (u spaced_sender). split; vm_compute; reflexivity. }
  split; [exact H|]. exact (single_header_line_record _ _ H).
Defined.

(** C9.  Lines that have a text, do not match the header pattern and come
    before any record are dropped: the parse of the whole input is the
    parse of what follows them. *)
Theorem leading_non_header_lines_are_discarded (pre rest : list object) :
  Forall (fun line => exists t, is_continuation line t) pre ->
  parse (pre ++ rest) = parse rest.
Proof.
  intros H. rewrite parse_app. unfold parse at 1.
  by rewrite (for_each_discard _ H).
Qed.

Lemma leading_non_header_lines_are_discarded_witness :
  Forall (fun line => exists t, is_continuation line t) [banner; blank]
  /\ parse ([banner; blank] ++ [bob_hello; how_are_you])
     = parse [bob_hello; how_are_you].
Proof.
  assert (Forall (fun line => exists t, is_continuation line t)
                 [banner; blank]) as H.
  { repeat constructor.
    - exists (u "Messages and calls are end-to-end encrypted.").
      split; vm_compute; reflexivity.
    - exists []. split; vm_compute; reflexivity. }
  split; [exact H|].
  exact (leading_non_header_lines_are_discarded _ _ H).
Defined.

Example banner_leaves_no_trace :
  parse [banner; blank; bob_hello; how_are_you]
  = Return [bob "Hello How are you?"].
Proof. vm_compute. reflexivity. Qed.

(** C10.  A line whose text is empty or whitespace only, coming after at
    least one record, is a continuation with the empty text: the message of
    the last record grows by exactly one space. *)
Theorem blank_line_adds_one_space
    (pre : list object) (line : object) (s : str)
    (messages : list row) (r : row) :
  parse pre = Return (messages ++ [r]) ->
  raw_text line = Some s ->
  forallb Py_UNICODE_ISSPACE s = true ->
  parse (pre ++ [line])
  = Return (messages
            ++ [Row (date r) (time r) (sender r) (message r ++ [ord " "])]).
Proof.
  intros Hpre Hs Hblank.
  assert (is_continuation line []) as Hc.
  { split; [|apply header_match_empty].
    unfold line_text. rewrite Hs. simpl. f_equal. by apply strip_all. }
  rewrite parse_app, Hpre, bind_Return. cbn [for_each].
  by rewrite (loop_body_continuation _ _ _ _ Hc).
Qed.

Lemma blank_line_adds_one_space_witness :
  parse [bob_hello] = Return ([] ++ [bob "Hello"])
  /\ raw_text blank = Some [0x20; 0x09; 0x0D; 0x0A]
  /\ forallb Py_UNICODE_ISSPACE [0x20; 0x09; 0x0D; 0x0A] = true
  /\ parse ([bob_hello] ++ [blank]) = Return ([] ++ [bob "Hello "]).
Proof.
  assert (parse [bob_hello] = Return ([] ++ [bob "Hello"])) as H1
    by (vm_compute; reflexivity).
  assert (raw_text blank = Some [0x20; 0x09; 0x0D; 0x0A]) as H2
    by (vm_compute; reflexivity).
  assert (forallb Py_UNICODE_ISSPACE [0x20; 0x09; 0x0D; 0x0A] = true) as H3
    by (vm_compute; reflexivity).
  split; [exact H1|]. split; [exact H2|]. split; [exact H3|].
  exact (blank_line_adds_one_space _ _ _ _ _ H1 H2 H3).
Defined.

(** Two blank lines, two trailing spaces. *)
Example blank_lines_accumulate :
  parse [bob_hello; blank; blank] = Return [bob "Hello  "].
Proof. vm_compute. reflexivity. Qed.

(** ** Facts about whole inputs *)

Module RecordsFacts.
Import Py Sre App PyFacts SreFacts AppFacts Records.

(** A line without a text is a [bytes] line that does not decode, and the
    body raises on it. *)
Lemma loop_body_no_text messages line :
  line_text line = None -> loop_body messages line = Raise TypeError.
Proof.
  destruct line as [x|s]; unfold line_text, raw_text; [|done].
  destruct (utf8_decode _) eqn:Hx; [done|]. intros _.
  by apply loop_body_undecodable.
Qed.

(** On a line with a text the body returns, and what it returns. *)
Lemma loop_body_returns messages line t :
  line_text line = Some t ->
  exists messages', loop_body messages line = Return messages'.
Proof.
  intros Ht. rewrite (loop_body_text _ _ _ Ht).
  destruct (header_match t); [eauto|]. destruct messages; eauto.
Qed.

(** The loop either runs through, every line having a text, or stops with
    a [TypeError] at the first line that has none. *)
Lemma for_each_cases messages chat_data :
  (Forall (fun line => is_Some (line_text line)) chat_data
   /\ exists messages', for_each loop_body messages chat_data = Return messages')
  \/ (Exists (fun line => line_text line = None) chat_data
      /\ for_each loop_body messages chat_data = Raise TypeError).
Proof.
  revert messages. induction chat_data as [|line chat_data IH]; intros messages.
  { left. split; [constructor|by exists messages]. }
  cbn [for_each]. destruct (line_text line) as [t|] eqn:Ht.
  - destruct (loop_body_returns messages _ _ Ht) as [messages2 ->].
    rewrite bind_Return.
    destruct (IH messages2) as [[Hall Hret]|[Hex Hraise]].
    + left. split; [constructor; by eauto|done].
    + right. split; [by apply Exists_cons_tl|done].
  - right. split; [by apply Exists_cons_hd|].
    by rewrite (loop_body_no_text _ _ Ht).
Qed.

Lemma header_of_header line r : header_of line = Some r <-> is_header line r.
Proof.
  unfold header_of, is_header. destruct (line_text line) as [t|]; simpl.
  - split; [eauto|]. by intros (? & [= <-] & ?).
  - split; [done|]. by intros (? & ? & _).
Qed.

Lemma header_of_continuation line t :
  is_continuation line t -> header_of line = None.
Proof. intros [Ht Hr]. unfold header_of. by rewrite Ht. Qed.

Lemma continues_refl r : continues r r.
Proof. by repeat split. Qed.

Lemma continues_trans r1 r2 r3 :
  continues r1 r2 -> continues r2 r3 -> continues r1 r3.
Proof.
  intros (? & ? & ? & ?) (? & ? & ? & ?).
  repeat split; try congruence. by etrans.
Qed.

(** One step of the loop: nothing before the last record changes, the last
    record can only grow, and a header line adds its record at the end. *)
Lemma loop_body_step messages line messages' :
  loop_body messages line = Return messages' ->
  exists kept new,
    messages' = kept ++ new
    /\ Forall2 continues messages kept
    /\ take (length messages - 1) kept = take (length messages - 1) messages
    /\ new = option_list (header_of line).
Proof.
  destruct (line_text line) as [t|] eqn:Ht;
    [|by rewrite (loop_body_no_text _ _ Ht)].
  rewrite (loop_body_text _ _ _ Ht). unfold header_of. rewrite Ht. simpl.
  destruct (header_match t) as [r|] eqn:Hr.
  - intros [= <-]. exists messages, [r]. repeat split.
    apply Forall_Forall2_diag, Forall_true, continues_refl.
  - destruct messages as [|r0 messages0] eqn:Hm.
    + intros [= <-]. exists [], []. by repeat split.
    + rewrite <- Hm. intros [= <-]. exists (extend_last messages (ord " " :: t)), [].
      rewrite app_nil_r. split; [done|].
      assert (messages <> []) as Hne by (by rewrite Hm).
      clear Hm. destruct (exists_last Hne) as (init & rl & ->).
      rewrite extend_last_snoc, length_app. simpl.
      replace (length init + 1 - 1)%nat with (length init) by lia.
      rewrite !take_app_length. repeat split.
      apply Forall2_app; [apply Forall_Forall2_diag, Forall_true, continues_refl|].
      constructor; [|constructor]. repeat split. by apply prefix_app_r.
Qed.

(** The loop from a state: the state is kept up to the growth of its last
    record, and the header lines add their records behind it, in order. *)
Lemma for_each_grows messages chat_data messages' :
  for_each loop_body messages chat_data = Return messages' ->
  exists kept new,
    messages' = kept ++ new
    /\ Forall2 continues messages kept
    /\ take (length messages - 1) kept = take (length messages - 1) messages
    /\ Forall2 continues (headers chat_data) new.
Proof.
  revert messages messages'.
  induction chat_data as [|line chat_data IH]; intros messages messages'.
  { intros [= <-]. exists messages, []. rewrite app_nil_r. repeat split.
    - apply Forall_Forall2_diag, Forall_true, continues_refl.
    - constructor. }
  cbn [for_each]. destruct (loop_body messages line) as [messages2|e] eqn:Hb;
    [|done].
  rewrite bind_Return. intros H.
  apply loop_body_step in Hb as (kept1 & new1 & -> & Hk1 & Ht1 & Hn1).
  apply IH in H as (kept2 & new2 & -> & Hk2 & Ht2 & Hn2).
  apply Forall2_app_inv_l in Hk2 as (kept & added & Hk & Ha & ->).
  pose proof (Forall2_length _ _ _ Hk1) as Hl1.
  pose proof (Forall2_length _ _ _ Hk) as Hl.
  exists kept, (added ++ new2). rewrite <- app_assoc. split; [done|].
  split; [|split].
  - clear -Hk1 Hk. revert kept Hk.
    induction Hk1 as [|? ? ? ? H1 _ IH]; intros kept Hk;
      inversion Hk; subst; constructor; eauto using continues_trans.
  - rewrite <- Ht1.
    assert (take (length messages - 1) kept
            = take (length messages - 1) (kept ++ added)) as ->
      by (rewrite take_app_le; [done|lia]).
    assert (take (length messages - 1) kept1
            = take (length messages - 1) (kept1 ++ new1)) as ->
      by (rewrite take_app_le; [done|lia]).
    rewrite length_app in Ht2.
    apply (f_equal (take (length messages - 1))) in Ht2.
    rewrite !take_take in Ht2.
    by rewrite !Nat.min_l in Ht2 by lia.
  - unfold headers in *. cbn [omap list_omap]. rewrite Hn1 in Ha.
    destruct (header_of line); simpl in Ha.
    + inversion Ha as [|? r' ? ? Hr Hnil]; subst. inversion Hnil; subst.
      by constructor.
    + inversion Ha; subst. done.
Qed.

End RecordsFacts.

Module RecordsFacts2.
Import Py Sre App PyFacts SreFacts AppFacts Records RecordsFacts.

(** Octets below [0x80] decode to themselves. *)
Lemma utf8_decode_ascii (x : bytes) :
  Forall (fun o => Byte.to_N o < 0x80) x ->
  utf8_decode (map Byte.to_N x) = Some (map Byte.to_N x).
Proof.
  induction 1 as [|o x Ho _ IH]; [done|].
  cbn [map utf8_decode]. apply N.ltb_lt in Ho. rewrite Ho, IH. done.
Qed.

Section Strip.
Context {A : Type} (sp : A -> bool).

Lemma lstrip_app_all (ws s : list A) :
  forallb sp ws = true -> lstrip sp (ws ++ s) = lstrip sp s.
Proof.
  induction ws as [|c ws IH]; simpl; [done|].
  intros [Hc Hw]%andb_true_iff. rewrite Hc. auto.
Qed.

Lemma lstrip_app_some (s ws : list A) c :
  c ∈ s -> sp c = false -> lstrip sp (s ++ ws) = lstrip sp s ++ ws.
Proof.
  induction s as [|d s IH]; simpl; [by intros ?%elem_of_nil|].
  intros [->|Hin]%elem_of_cons Hc.
  - by rewrite Hc.
  - destruct (sp d); [by apply IH|done].
Qed.

Lemma forallb_rev (s : list A) : forallb sp (rev s) = forallb sp s.
Proof.
  induction s as [|c s IH]; simpl; [done|].
  rewrite forallb_app, IH. simpl. rewrite andb_true_r. apply andb_comm.
Qed.

Lemma rstrip_app_all (s ws : list A) :
  forallb sp ws = true -> rstrip sp (s ++ ws) = rstrip sp s.
Proof.
  intros Hw. unfold rstrip. rewrite rev_app_distr, lstrip_app_all; [done|].
  by rewrite forallb_rev.
Qed.

(** Whitespace around a text does not change what [strip] leaves. *)
Lemma strip_padding (ws1 s ws2 : list A) :
  forallb sp ws1 = true -> forallb sp ws2 = true ->
  strip sp (ws1 ++ s ++ ws2) = strip sp s.
Proof.
  intros H1 H2. unfold strip. rewrite (lstrip_app_all _ _ H1).
  destruct (forallb sp s) eqn:Hs.
  - rewrite (lstrip_all sp s Hs), lstrip_all; [done|].
    by rewrite forallb_app, Hs, H2.
  - assert (exists c, c ∈ s /\ sp c = false) as (c & Hin & Hc).
    { clear -Hs. induction s as [|d s IH]; simpl in Hs; [done|].
      destruct (sp d) eqn:Hd.
      - destruct (IH Hs) as (c & ? & ?). exists c. split; [by right|done].
      - exists d. split; [by left|done]. }
    rewrite (lstrip_app_some _ _ _ Hin Hc). by apply rstrip_app_all.
Qed.


End Strip.

End RecordsFacts2.

(** ** Facts about the dashboards *)

Module DashboardFacts.
Import Py Sre App PyFacts SreFacts AppFacts Dashboard RecordsFacts2.

(** *** The order on [str] *)

Lemma str_ltb_irrefl a : str_ltb a a = false.
Proof.
  induction a as [|x a IH]; simpl; [done|]. by rewrite N.ltb_irrefl.
Qed.

Lemma str_ltb_trans a c d :
  str_ltb a c = true -> str_ltb c d = true -> str_ltb a d = true.
Proof.
  revert c d. induction a as [|x a IH]; intros [|y c] [|z d]; simpl; try done.
  destruct (N.ltb_spec x y), (N.ltb_spec y x), (N.ltb_spec y z),
    (N.ltb_spec z y), (N.ltb_spec x z), (N.ltb_spec z x);
    try done; try lia.
  apply IH.
Qed.

Lemma str_ltb_total a c :
  str_ltb a c = false -> str_ltb c a = false -> a = c.
Proof.
  revert c. induction a as [|x a IH]; intros [|y c]; simpl; try done.
  destruct (N.ltb_spec x y), (N.ltb_spec y x); try done; try lia.
  intros ? ?. f_equal; [lia|by apply IH].
Qed.

(** *** [sorted] and [unique] *)

Lemma insert_sorted_perm x l : insert_sorted x l ≡ₚ x :: l.
Proof.
  induction l as [|y l IH]; simpl; [done|].
  destruct (str_ltb y x); [|done]. rewrite IH. apply Permutation_swap.
Qed.

Lemma sorted_perm l : sorted l ≡ₚ l.
Proof.
  induction l as [|x l IH]; simpl; [done|].
  by rewrite insert_sorted_perm, IH.
Qed.

Lemma insert_sorted_strict x l :
  x ∉ l -> StronglySorted str_lt l -> StronglySorted str_lt (insert_sorted x l).
Proof.
  intros Hx Hs. induction Hs as [|y l Hs IH Hy]; simpl.
  { repeat constructor. }
  apply not_elem_of_cons in Hx as [Hne Hx].
  destruct (str_ltb y x) eqn:Hyx.
  - constructor; [by apply IH|].
    rewrite insert_sorted_perm. by constructor.
  - assert (str_lt x y) as Hxy.
    { unfold str_lt. destruct (str_ltb x y) eqn:Hxy; [done|].
      by destruct Hne, (str_ltb_total _ _ Hxy Hyx). }
    constructor; [by constructor|]. constructor; [done|].
    eapply Forall_impl; [exact Hy|]. intros z Hz. by eapply str_ltb_trans.
Qed.

Lemma sorted_strict l : NoDup l -> StronglySorted str_lt (sorted l).
Proof.
  induction 1 as [|x l Hx _ IH]; simpl; [constructor|].
  apply insert_sorted_strict; [|done]. by rewrite sorted_perm.
Qed.

Lemma elem_of_unique_from seen l x :
  x ∈ unique_from seen l <-> x ∈ l /\ x ∉ seen.
Proof.
  revert seen. induction l as [|y l IH]; intros seen; simpl.
  { split; [by intros ?%elem_of_nil|]. by intros [?%elem_of_nil _]. }
  case_bool_decide as Hy.
  - rewrite IH, elem_of_cons. split.
    + intros [? ?]. split; [by right|done].
    + intros [[->|?] ?]; done.
  - rewrite !elem_of_cons, IH, not_elem_of_cons. split.
    + intros [->|(? & ? & ?)]; (split; [by auto|done]).
    + intros [[->|?] ?]; [by left|].
      destruct (decide (x = y)) as [->|]; [by left|by right].
Qed.

Lemma NoDup_unique_from seen l : NoDup (unique_from seen l).
Proof.
  revert seen. induction l as [|y l IH]; intros seen; simpl; [constructor|].
  case_bool_decide; [done|]. constructor; [|done].
  rewrite elem_of_unique_from, not_elem_of_cons. by intros [_ [? _]].
Qed.

Lemma elem_of_unique l x : x ∈ unique l <-> x ∈ l.
Proof.
  unfold unique. rewrite elem_of_unique_from.
  split; [by intros [? _]|]. intros ?. split; [done|]. apply not_elem_of_nil.
Qed.

(** *** Counting by sender *)

Section Frame.
Context {Timestamp : Type}.
Implicit Types (df : list (@record Timestamp)).

Lemma elem_of_users df usr :
  usr ∈ users df <-> exists r, r ∈ df /\ sender_name r = usr.
Proof.
  unfold users. rewrite sorted_perm, elem_of_unique, list_elem_of_fmap.
  split; [intros (r & -> & ?)|intros (r & ? & <-)]; eauto.
Qed.

Lemma NoDup_users df : NoDup (users df).
Proof. unfold users. rewrite sorted_perm. apply NoDup_unique_from. Qed.

Lemma sum_one_key (keys : list str) s :
  NoDup keys -> s ∈ keys ->
  sum_list ((fun k => if bool_decide (s = k) then 1 else 0)%nat <$> keys)
  = 1%nat.
Proof.
  induction 1 as [|k keys Hk _ IH]; [by intros ?%elem_of_nil|].
  rewrite fmap_cons. simpl. intros [->|Hin]%elem_of_cons.
  - rewrite bool_decide_eq_true_2 by done.
    assert (sum_list ((fun k' => if bool_decide (k = k') then 1 else 0)%nat
                      <$> keys) = 0%nat) as ->; [|done].
    clear -Hk. induction keys as [|k' keys IH]; [done|].
    apply not_elem_of_cons in Hk as [? ?]. rewrite fmap_cons. simpl.
    rewrite bool_decide_eq_false_2 by done. by rewrite IH.
  - rewrite bool_decide_eq_false_2 by (by intros ->). by rewrite IH.
Qed.

Lemma by_sender_cons usr (r : @record Timestamp) df :
  length (by_sender usr (r :: df))
  = ((if bool_decide (sender_name r = usr) then 1 else 0)
     + length (by_sender usr df))%nat.
Proof.
  unfold by_sender, where_. rewrite filter_cons.
  destruct (decide _) as [Hd|Hd%not_true_is_false]; by rewrite Hd.
Qed.

(** The counts by sender over keys that cover the frame add up to it. *)
Lemma sum_by_sender (keys : list str) df :
  NoDup keys -> Forall (fun r => sender_name r ∈ keys) df ->
  sum_list ((fun usr => length (by_sender usr df)) <$> keys) = length df.
Proof.
  intros Hk. induction 1 as [|r df Hr _ IH].
  { clear. induction keys as [|k keys IH]; [done|].
    rewrite fmap_cons. simpl. exact IH. }
  assert (sum_list ((fun usr => length (by_sender usr (r :: df))) <$> keys)
          = (sum_list ((fun k => if bool_decide (sender_name r = k)
                                 then 1 else 0)%nat <$> keys)
             + sum_list ((fun usr => length (by_sender usr df)) <$> keys))%nat)
    as ->.
  { clear. induction keys as [|k keys IH]; [done|].
    rewrite !fmap_cons. cbn [sum_list_with id].
    rewrite by_sender_cons, IH. unfold id. lia. }
  rewrite IH, (sum_one_key keys (sender_name r) Hk Hr). done.
Qed.

End Frame.

End DashboardFacts.

Module DashboardFacts2.
Import Py Sre App PyFacts SreFacts AppFacts Dashboard RecordsFacts2.
Import DashboardFacts.

(** *** Literal patterns and [search] *)

Lemma rmatch_literals_app c cs pos rest m k :
  rmatch (literals c cs) pos ((c :: cs) ++ rest) m k
  = k (pos + S (length cs))%nat rest m.
Proof.
  revert c pos. induction cs as [|d cs IH]; intros c pos; simpl.
  - rewrite N.eqb_refl. by rewrite Nat.add_1_r.
  - rewrite N.eqb_refl. specialize (IH d (S pos)). simpl in IH. rewrite IH.
    f_equal. lia.
Qed.

Lemma rmatch_literals_inv c cs pos s m k res :
  rmatch (literals c cs) pos s m k = Some res ->
  exists rest, s = (c :: cs) ++ rest.
Proof.
  revert c pos s. induction cs as [|d cs IH]; intros c pos s; simpl.
  - destruct s as [|c' s]; [done|].
    destruct (N.eqb_spec c' c) as [->|]; [|done]. by exists s.
  - destruct s as [|c' s]; [done|].
    destruct (N.eqb_spec c' c) as [->|]; [|done].
    intros [rest ->]%IH. by exists rest.
Qed.

(** A search succeeds exactly when the pattern matches at some start
    position. *)
Lemma search_from_is_Some r pos s :
  is_Some (search_from r pos s) <->
  exists pre post, s = pre ++ post
    /\ is_Some (rmatch r (pos + length pre) post ∅ (fun _ _ m => Some m)).
Proof.
  revert pos. induction s as [|c s IH]; intros pos; simpl.
  - destruct (rmatch r pos [] ∅ _) as [m|] eqn:Hm.
    + split; [|by eexists]. intros _. exists [], []. simpl.
      rewrite Nat.add_0_r, Hm. by eexists.
    + split; [by intros [? ?]|].
      intros (pre & post & Heq & Hs). symmetry in Heq.
      apply app_eq_nil in Heq as [-> ->]. simpl in Hs.
      rewrite Nat.add_0_r, Hm in Hs. by destruct Hs.
  - destruct (rmatch r pos (c :: s) ∅ _) as [m|] eqn:Hm.
    + split; [|by eexists]. intros _. exists [], (c :: s). simpl.
      rewrite Nat.add_0_r, Hm. by eexists.
    + rewrite IH. split.
      * intros (pre & post & -> & Hs). exists (c :: pre), post. simpl.
        split; [done|].
        assert (pos + S (length pre) = S pos + length pre)%nat as -> by lia.
        exact Hs.
      * intros ([|c' pre] & post & Heq & Hs); simpl in *.
        { subst post. rewrite Nat.add_0_r, Hm in Hs. by destruct Hs. }
        injection Heq as <- ->. exists pre, post. split; [done|].
        assert (pos + S (length pre) = S pos + length pre)%nat as Hp by lia.
        rewrite Hp in Hs. exact Hs.
Qed.

Lemma search_literals c cs s :
  is_Some (pattern_search (literals c cs) s) <->
  exists pre post, s = pre ++ (c :: cs) ++ post.
Proof.
  unfold pattern_search. rewrite search_from_is_Some. split.
  - intros (pre & post & -> & [res Hres]).
    apply rmatch_literals_inv in Hres as [rest ->]. eauto.
  - intros (pre & post & ->). exists pre, ((c :: cs) ++ post).
    split; [done|]. rewrite rmatch_literals_app. by eexists.
Qed.

(** *** [join] and blank texts *)



End DashboardFacts2.

(** ** Further properties of the loop *)

Import Py Sre App PyFacts SreFacts AppFacts Scenario.
Import Records RecordsFacts RecordsFacts2.

(** X1.  The pattern is anchored where the line begins: a trimmed line
    whose first character is not a decimal digit is never a header line,
    whatever follows, a complete header included.  The loop treats it as
    a continuation line (or drops it before the first record). *)
Theorem non_digit_start_is_no_header (line : object) (c : N) (t : str) :
  line_text line = Some (c :: t) ->
  Py_UNICODE_ISDECIMAL c = false ->
  is_continuation line (c :: t).
Proof.
  intros Ht Hc. split; [done|].
  destruct (header_match (c :: t)) as [r|] eqn:Hr; [|done]. exfalso.
  apply header_match_shape in Hr. inversion Hr as [dd ? ? ? ? ? ? ? ? ? ? ? ? ? Hdd Hlen]; subst.
  destruct dd as [|d dd]; [simpl in Hlen; lia|].
  match goal with H : _ = c :: t |- _ => injection H as -> _ end.
  apply andb_true_iff in Hdd as [Hd _]. simpl in Hd. congruence.
Qed.

Lemma non_digit_start_is_no_header_witness :
  line_text (PyBytes ([xef; xbb; xbf] ++ b "1/1/24, 10:00 am - Bob: Hello"))
    = Some (0xFEFF :: u "1/1/24, 10:00 am - Bob: Hello")
  /\ Py_UNICODE_ISDECIMAL 0xFEFF = false
  /\ is_continuation
       (PyBytes ([xef; xbb; xbf] ++ b "1/1/24, 10:00 am - Bob: Hello"))
       (0xFEFF :: u "1/1/24, 10:00 am - Bob: Hello").
Proof.
  assert (line_text
            (PyBytes ([xef; xbb; xbf] ++ b "1/1/24, 10:00 am - Bob: Hello"))
          = Some (0xFEFF :: u "1/1/24, 10:00 am - Bob: Hello")) as H1
    by (vm_compute; reflexivity).
  assert (Py_UNICODE_ISDECIMAL 0xFEFF = false) as H2
    by (vm_compute; reflexivity).
  split; [exact H1|]. split; [exact H2|].
  exact (non_digit_start_is_no_header _ _ _ H1 H2).
Defined.

Lemma parse_returns_all chat_data :
  Forall (fun line => is_Some (line_text line)) chat_data
  <-> exists messages, parse chat_data = Return messages.
Proof.
  unfold parse.
  destruct (for_each_cases [] chat_data)
    as [[Hall [messages Hret]]|[Hex Hraise]].
  - split; eauto.
  - split; [|intros [messages Hret]; congruence].
    intros Hall. exfalso. apply Exists_exists in Hex as (line & Hin & Hn).
    rewrite Forall_forall in Hall. apply Hall in Hin as [? ?]. congruence.
Qed.

(** X2.  The parse returns exactly when every line has a text, that is,
    is a [str] or a [bytes] object that decodes; when it raises, the
    exception is a [TypeError] and some line is undecodable. *)
Theorem parse_returns_iff (chat_data : list object) :
  ((exists messages, parse chat_data = Return messages)
   <-> Forall (fun line => is_Some (line_text line)) chat_data)
  /\ (forall e, parse chat_data = Raise e ->
        e = TypeError
        /\ Exists (fun line => line_text line = None) chat_data).
Proof.
  unfold parse.
  destruct (for_each_cases [] chat_data)
    as [[Hall [messages Hret]]|[Hex Hraise]].
  - split; [split; eauto|]. intros e He. congruence.
  - split.
    + split; [intros [messages Hret]; congruence|].
      intros Hall. exfalso. apply Exists_exists in Hex as (line & Hin & Hn).
      rewrite Forall_forall in Hall. apply Hall in Hin as [? ?]. congruence.
    + intros e He. split; [congruence|done].
Qed.

(** X3.  An input of [bytes] lines that hold ASCII octets only always
    parses: such lines decode to the same code points. *)
Theorem ascii_input_parses (chat_data : list bytes) :
  Forall (Forall (fun o => Byte.to_N o < 0x80)) chat_data ->
  Forall (fun x => raw_text (PyBytes x) = Some (map Byte.to_N x)) chat_data
  /\ exists messages, parse (PyBytes <$> chat_data) = Return messages.
Proof.
  intros H.
  assert (Forall (fun x => raw_text (PyBytes x) = Some (map Byte.to_N x))
                 chat_data) as Hraw.
  { eapply Forall_impl; [exact H|]. intros x Hx. by apply utf8_decode_ascii. }
  split; [done|]. apply (proj1 (parse_returns_all _)).
  rewrite Forall_fmap. eapply Forall_impl; [exact Hraw|].
  intros x Hx. change (is_Some (line_text (PyBytes x))).
  unfold line_text. rewrite Hx. by eexists.
Qed.

Lemma ascii_input_parses_witness :
  Forall (Forall (fun o => Byte.to_N o < 0x80))
         [b "1/1/24, 10:00 am - Bob: Hello"; b "How are you?"]
  /\ Forall (fun x => raw_text (PyBytes x) = Some (map Byte.to_N x))
            [b "1/1/24, 10:00 am - Bob: Hello"; b "How are you?"]
  /\ exists messages,
       parse (PyBytes <$> [b "1/1/24, 10:00 am - Bob: Hello";
                           b "How are you?"])
       = Return messages.
Proof.
  assert (Forall (Forall (fun o => Byte.to_N o < 0x80))
                 [b "1/1/24, 10:00 am - Bob: Hello"; b "How are you?"]) as H.
  { repeat constructor. }
  split; [exact H|]. exact (ascii_input_parses _ H).
Defined.

(** The records of a result answer the header lines of the input one for
    one. *)
Lemma parse_headers chat_data messages :
  parse chat_data = Return messages ->
  Forall2 continues (headers chat_data) messages.
Proof.
  intros (kept & new & -> & Hk & _ & Hn)%for_each_grows.
  inversion Hk; subst. done.
Qed.

(** X4.  Whatever the input, when the parse returns, its records answer
    the header lines one for one and in order: record [i] has the date,
    time and sender of the [i]-th header line and a message that begins
    with that line's message.  Lines that are not header lines add no
    record. *)
Theorem records_follow_headers (chat_data : list object) (messages : list row) :
  parse chat_data = Return messages ->
  Forall2 continues (headers chat_data) messages
  /\ length messages = length (headers chat_data).
Proof.
  intros H%parse_headers. split; [done|]. symmetry. by eapply Forall2_length.
Qed.

Lemma records_follow_headers_witness :
  parse [banner; bob_hello; how_are_you; amy_good]
    = Return [bob "Hello How are you?"; amy "Good!"]
  /\ Forall2 continues (headers [banner; bob_hello; how_are_you; amy_good])
             [bob "Hello How are you?"; amy "Good!"]
  /\ length [bob "Hello How are you?"; amy "Good!"]
     = length (headers [banner; bob_hello; how_are_you; amy_good]).
Proof.
  assert (parse [banner; bob_hello; how_are_you; amy_good]
          = Return [bob "Hello How are you?"; amy "Good!"]) as H
    by (vm_compute; reflexivity).
  split; [exact H|]. exact (records_follow_headers _ _ H).
Defined.

(** X5.  More input never rewrites what is already parsed: after [rest],
    the records of [pre] are still there, in place, all but the last one
    unchanged, the last one with the same date, time and sender and a
    message that can only have grown; new records come behind them. *)
Theorem earlier_records_are_final
    (pre rest : list object) (messages messages' : list row) :
  parse pre = Return messages ->
  parse (pre ++ rest) = Return messages' ->
  exists kept new,
    messages' = kept ++ new
    /\ Forall2 continues messages kept
    /\ take (length messages - 1) kept = take (length messages - 1) messages.
Proof.
  intros Hpre. rewrite parse_app, Hpre, bind_Return.
  intros (kept & new & -> & Hk & Ht & _)%for_each_grows. eauto.
Qed.

Lemma earlier_records_are_final_witness :
  parse [asha_line; bob_hello] = Return [asha; bob "Hello"]
  /\ parse ([asha_line; bob_hello] ++ [how_are_you; amy_good])
     = Return [asha; bob "Hello How are you?"; amy "Good!"]
  /\ exists kept new,
       [asha; bob "Hello How are you?"; amy "Good!"] = kept ++ new
       /\ Forall2 continues [asha; bob "Hello"] kept
       /\ take (length [asha; bob "Hello"] - 1) kept
          = take (length [asha; bob "Hello"] - 1) [asha; bob "Hello"].
Proof.
  assert (parse [asha_line; bob_hello] = Return [asha; bob "Hello"]) as H1
    by (vm_compute; reflexivity).
  assert (parse ([asha_line; bob_hello] ++ [how_are_you; amy_good])
          = Return [asha; bob "Hello How are you?"; amy "Good!"]) as H2
    by (vm_compute; reflexivity).
  split; [exact H1|]. split; [exact H2|].
  exact (earlier_records_are_final _ _ _ _ H1 H2).
Defined.

Lemma header_of_fields line r : header_of line = Some r -> header_fields r.
Proof.
  intros (t & _ & Hr)%header_of_header.
  apply header_match_shape in Hr. destruct Hr.
  unfold header_fields. cbn [date time sender].
  split; [|split; [|split]].
  - eexists dd, mo, yy. split; [reflexivity|]. auto 10.
  - exists (hh ++ ord ":" :: mi ++ sp), ap.
    split; [|by apply marker_letter].
    rewrite <- !app_assoc. cbn [app]. by rewrite <- !app_assoc.
  - intros ->. simpl in *. lia.
  - by apply all_in_not_colon.
Qed.

Lemma continues_fields r r' : continues r r' -> header_fields r -> header_fields r'.
Proof.
  intros (Hd & Ht & Hs & _). unfold header_fields. by rewrite Hd, Ht, Hs.
Qed.

(** X6.  Every record of every result keeps the date, time and sender its
    header line gave it: the date is one or two digits, a slash, one or
    two digits, a slash and two to four digits; the time ends with the
    lower-case marker; the sender is not empty and holds no colon.
    Continuation lines reach the message only. *)
Theorem records_keep_header_fields
    (chat_data : list object) (messages : list row) :
  parse chat_data = Return messages -> Forall header_fields messages.
Proof.
  intros H%parse_headers. unfold headers in H.
  induction chat_data as [|line chat_data IH] in messages, H |- *.
  { inversion H; subst. constructor. }
  cbn [omap list_omap] in H. destruct (header_of line) as [h|] eqn:Hh; [|eauto].
  inversion H as [|? r ? messages0 Hc Hrest]; subst. constructor; [|eauto].
  eapply continues_fields; [exact Hc|]. by eapply header_of_fields.
Qed.

Lemma records_keep_header_fields_witness :
  parse [bob_hello; line "at 10:30: see you"]
    = Return [bob "Hello at 10:30: see you"]
  /\ Forall header_fields [bob "Hello at 10:30: see you"].
Proof.
  assert (parse [bob_hello; line "at 10:30: see you"]
          = Return [bob "Hello at 10:30: see you"]) as H
    by (vm_compute; reflexivity).
  split; [exact H|]. exact (records_keep_header_fields _ _ H).
Defined.

Lemma padded_line_text line line' :
  padded line line' -> line_text line' = line_text line.
Proof.
  intros (s & ws1 & ws2 & Hs & Hs' & H1 & H2).
  unfold line_text. rewrite Hs, Hs'. simpl. f_equal.
  by apply strip_padding.
Qed.

Lemma loop_body_line_text messages line line' :
  line_text line' = line_text line ->
  loop_body messages line' = loop_body messages line.
Proof.
  intros H. destruct (line_text line) as [t|] eqn:Ht.
  - by rewrite (loop_body_text _ _ _ Ht), (loop_body_text _ _ _ H).
  - by rewrite (loop_body_no_text _ _ Ht), (loop_body_no_text _ _ H).
Qed.

(** X7.  Whitespace around the text of a line never matters: an input and
    the same input with lines indented, or ended by CR LF instead of LF,
    or followed by blanks, parse to the same result. *)
Theorem padding_is_ignored (chat_data chat_data' : list object) :
  Forall2 padded chat_data chat_data' ->
  parse chat_data' = parse chat_data.
Proof.
  intros H. unfold parse. generalize (@nil row).
  induction H as [|line line' chat_data chat_data' Hp _ IH];
    intros messages; [done|].
  cbn [for_each].
  rewrite (loop_body_line_text _ _ _ (padded_line_text _ _ Hp)).
  destruct (loop_body messages line); simpl; [apply IH|done].
Qed.

Lemma padding_is_ignored_witness :
  Forall2 padded
    [PyBytes (b "1/1/24, 10:00 am - Bob: Hello"); PyStr (u "How are you?")]
    [PyBytes (b "  1/1/24, 10:00 am - Bob: Hello" ++ [x0d; x0a]);
     PyStr (0x09 :: u "How are you?" ++ [0xA0; 0x0A])]
  /\ parse [PyBytes (b "  1/1/24, 10:00 am - Bob: Hello" ++ [x0d; x0a]);
            PyStr (0x09 :: u "How are you?" ++ [0xA0; 0x0A])]
     = parse [PyBytes (b "1/1/24, 10:00 am - Bob: Hello");
              PyStr (u "How are you?")].
Proof.
  assert (Forall2 padded
    [PyBytes (b "1/1/24, 10:00 am - Bob: Hello"); PyStr (u "How are you?")]
    [PyBytes (b "  1/1/24, 10:00 am - Bob: Hello" ++ [x0d; x0a]);
     PyStr (0x09 :: u "How are you?" ++ [0xA0; 0x0A])]) as H.
  { constructor; [|constructor; [|constructor]].
    - exists (u "1/1/24, 10:00 am - Bob: Hello"), [0x20; 0x20], [0x0D; 0x0A].
      repeat split; vm_compute; reflexivity.
    - exists (u "How are you?"), [0x09], [0xA0; 0x0A].
      repeat split; vm_compute; reflexivity. }
  split; [exact H|]. exact (padding_is_ignored _ _ H).
Defined.

Lemma for_each_blocks messages blocks recs :
  Forall2 is_block blocks recs ->
  for_each loop_body messages (concat (block_lines <$> blocks))
  = Return (messages ++ (block_record <$> recs)).
Proof.
  intros H. revert messages.
  induction H as [|[hd conts] [r ts] blocks recs [Hh Hc] _ IH];
    intros messages.
  { simpl. by rewrite app_nil_r. }
  rewrite !fmap_cons. cbn [concat block_lines fst snd app] in *.
  cbn [for_each]. rewrite (loop_body_header _ _ _ Hh), bind_Return.
  rewrite for_each_app, (for_each_continuations _ _ _ _ Hc), bind_Return.
  rewrite IH, <- app_assoc. done.
Qed.

(** X8.  The whole result, block by block: lines that are no header lines
    before the first header line leave nothing, and then every header
    line with the continuation lines behind it makes one record, whose
    message is the message of the header line followed by each
    continuation text with one space in front.  The records come in the
    order of the blocks. *)
Theorem blocks_parse
    (junk : list object) (blocks : list (object * list object))
    (recs : list (row * list str)) :
  Forall (fun line => exists t, is_continuation line t) junk ->
  Forall2 is_block blocks recs ->
  parse (junk ++ concat (block_lines <$> blocks))
  = Return (block_record <$> recs).
Proof.
  intros Hj Hb. rewrite parse_app. unfold parse.
  rewrite (for_each_discard _ Hj), bind_Return.
  by rewrite (for_each_blocks _ _ _ Hb).
Qed.

Lemma blocks_parse_witness :
  Forall (fun line => exists t, is_continuation line t) [banner]
  /\ Forall2 is_block
       [(bob_hello, [how_are_you; blank]); (amy_good, [])]
       [(bob "Hello", [u "How are you?"; []]); (amy "Good!", [])]
  /\ parse ([banner]
            ++ concat (block_lines
                       <$> [(bob_hello, [how_are_you; blank]); (amy_good, [])]))
     = Return (block_record
               <$> [(bob "Hello", [u "How are you?"; []]); (amy "Good!", [])]).
Proof.
  assert (Forall (fun line => exists t, is_continuation line t) [banner]) as H1.
  { repeat constructor.
    exists (u "Messages and calls are end-to-end encrypted.").
    split; vm_compute; reflexivity. }
  assert (Forall2 is_block
       [(bob_hello, [how_are_you; blank]); (amy_good, [])]
       [(bob "Hello", [u "How are you?"; []]); (amy "Good!", [])]) as H2.
  { constructor; [split|constructor; [split|constructor]].
    - exists (u "1/1/24, 10:00 am - Bob: Hello").
      split; vm_compute; reflexivity.
    - constructor; [split; vm_compute; reflexivity|].
      constructor; [split; vm_compute; reflexivity|constructor].
    - exists (u "1/1/24, 10:01 am - Amy: Good!").
      split; vm_compute; reflexivity.
    - constructor. }
  split; [exact H1|]. split; [exact H2|]. exact (blocks_parse _ _ _ H1 H2).
Defined.

(** ** Properties of the dashboards *)

Import Dashboard DashboardFacts DashboardFacts2 FrameFacts.

(** X9.  "Media Shared" counts the rows whose message holds the text
    [<Media omitted>] somewhere, in this spelling and case; a row counts
    once however often the text occurs in it.  None of the characters of
    the text is special in a pattern, so the search is a plain search for
    the text. *)
Theorem media_shared_counts_the_text {Timestamp : Type}
    (df : list (@record Timestamp)) :
  (forall message,
     contains_media message = true <->
     exists pre post, message = pre ++ u "<Media omitted>" ++ post)
  /\ total_media df
     = length (where_ (fun r => contains_media (message_text r)) df).
Proof.
  split.
  - intros message. unfold contains_media, media_pattern.
    rewrite bool_decide_eq_true. apply search_literals.
  - unfold total_media, where_. rewrite <- list_fmap_compose.
    induction df as [|r df IH]; [done|].
    rewrite fmap_cons, !filter_cons. simpl.
    destruct (contains_media (message_text r)); simpl; by rewrite IH.
Qed.

(** X10.  The users of the select box are the senders of the frame, each
    one once, in strictly increasing order of Python's comparison of
    [str] (code point by code point, a prefix before the longer text). *)
Theorem users_are_sorted_senders {Timestamp : Type}
    (df : list (@record Timestamp)) :
  StronglySorted str_lt (users df)
  /\ NoDup (users df)
  /\ (forall usr, usr ∈ users df <-> exists r, r ∈ df /\ sender_name r = usr).
Proof.
  split; [|split].
  - apply sorted_strict, NoDup_unique_from.
  - apply NoDup_users.
  - apply elem_of_users.
Qed.

(** X11.  Under any filter computed row by row, the message counts of the
    users of the select box add up to the number of rows shown: every row
    is counted for exactly one user. *)
Theorem sender_counts_add_up {Timestamp : Type}
    (mask : @record Timestamp -> bool) (df : list (@record Timestamp)) :
  sum_list ((fun usr => length (by_sender usr (where_ mask df))) <$> users df)
  = length (where_ mask df).
Proof.
  apply sum_by_sender; [apply NoDup_users|].
  apply Forall_forall. intros r Hr. apply elem_of_users.
  exists r. split; [|done].
  unfold where_ in Hr. by apply list_elem_of_filter in Hr as [_ ?].
Qed.


(** X13.  "Total Participants" never exceeds "Total Messages", nor the
    number of users offered in the select box, whatever the filter. *)
Theorem participants_are_bounded {Timestamp : Type}
    (mask : @record Timestamp -> bool) (df : list (@record Timestamp)) :
  (nunique (sender_name <$> where_ mask df) <= length (where_ mask df))%nat
  /\ (nunique (sender_name <$> where_ mask df) <= length (users df))%nat.
Proof.
  unfold nunique. split.
  - rewrite <- (length_fmap sender_name (where_ mask df)).
    apply submseteq_length, NoDup_submseteq; [apply NoDup_unique_from|].
    intros x. by rewrite elem_of_unique.
  - apply submseteq_length, NoDup_submseteq; [apply NoDup_unique_from|].
    intros x. rewrite elem_of_unique, elem_of_users.
    intros (r & -> & Hr)%list_elem_of_fmap. exists r. split; [|done].
    unfold where_ in Hr. by apply list_elem_of_filter in Hr as [_ ?].
Qed.

(** X14.  Every sender has a dashboard of its own behind the select box,
    except a sender whose name is the text [Overall]: that choice, like
    the first one, opens the group overview. *)
Theorem every_sender_has_a_view {Timestamp : Type}
    (df : list (@record Timestamp)) (usr : str) :
  usr ∈ users df ->
  ((exists choice, choice ∈ user_choices df /\ view_of choice = UserAnalysis usr)
   <-> usr <> u "Overall").
Proof.
  intros Hu. unfold view_of. split.
  - intros (choice & _ & Hv). case_bool_decide as Hc; [done|].
    by injection Hv as <-.
  - intros Hne. exists usr. split; [by right|].
    by rewrite bool_decide_eq_false_2.
Qed.

Lemma every_sender_has_a_view_witness :
  u "Bob" ∈ users [Record_ (Some (2024, 1, 1)) (u "10:00 am") (u "Bob")
                           (u "Hello");
                   Record_ (Some (2024, 1, 1)) (u "10:01 am") (u "Amy")
                           (u "Good!")]
  /\ ((exists choice,
         choice ∈ user_choices
                    [Record_ (Some (2024, 1, 1)) (u "10:00 am") (u "Bob")
                             (u "Hello");
                     Record_ (Some (2024, 1, 1)) (u "10:01 am") (u "Amy")
                             (u "Good!")]
         /\ view_of choice = UserAnalysis (u "Bob"))
      <-> u "Bob" <> u "Overall").
Proof.
  assert (u "Bob" ∈ users [Record_ (Some (2024, 1, 1)) (u "10:00 am")
                                   (u "Bob") (u "Hello");
                           Record_ (Some (2024, 1, 1)) (u "10:01 am")
                                   (u "Amy") (u "Good!")]) as H.
  { vm_compute. right. left. }
  split; [exact H|]. exact (every_sender_has_a_view _ _ H).
Defined.

(** X15.  From the file to the frame: when the parse returns, every row
    of the normalised frame comes from a header line of the input, with
    that line's time and sender and a message that begins with that
    line's message; so the frame, and any filter of it, never has more
    rows than the input has header lines. *)
Theorem frame_rows_come_from_headers {Timestamp : Type}
    (to_datetime : list str -> list (option Timestamp))
    (mask : @record Timestamp -> bool)
    (chat_data : list object) (messages : list row) :
  parse chat_data = Return messages ->
  (forall rec, rec ∈ where_ mask (normalize to_datetime messages) ->
     exists h, h ∈ headers chat_data
       /\ time_text rec = time h /\ sender_name rec = sender h
       /\ message h `prefix_of` message_text rec)
  /\ (length (where_ mask (normalize to_datetime messages))
      <= length (headers chat_data) <= length chat_data)%nat.
Proof.
  intros Hparse%parse_headers. split.
  - intros rec [_ Hrec]%list_elem_of_filter. unfold normalize in Hrec.
    destruct (dropna_assign messages (to_datetime (date <$> messages)))
      as (keep & _ & _ & Hout).
    apply list_elem_of_lookup in Hrec as [j Hj].
    destruct (Forall2_lookup_r _ _ _ _ _ Hout Hj)
      as (i & _ & r & ts & Hr & _ & ->).
    destruct (Forall2_lookup_r _ _ _ _ _ Hparse Hr)
      as (h & Hh & _ & Ht & Hs & Hm).
    exists h. split; [by eapply list_elem_of_lookup_2|]. by simpl.
  - split.
    + unfold where_, normalize, dropna_date, assign_date.
      rewrite !length_filter, length_zip_with.
      rewrite (Forall2_length _ _ _ Hparse). lia.
    + unfold headers. clear. induction chat_data as [|line chat_data IH];
        [done|].
      cbn [omap list_omap]. destruct (header_of line); simpl; lia.
Qed.

Lemma frame_rows_come_from_headers_witness :
  parse [banner; bob_hello; how_are_you; amy_good]
    = Return [bob "Hello How are you?"; amy "Good!"]
  /\ (forall rec,
        rec ∈ where_ (fun _ => true)
                (normalize (fun column : list str => Some <$> column)
                   [bob "Hello How are you?"; amy "Good!"]) ->
        exists h, h ∈ headers [banner; bob_hello; how_are_you; amy_good]
          /\ time_text rec = time h /\ sender_name rec = sender h
          /\ message h `prefix_of` message_text rec)
  /\ (length (where_ (fun _ => true)
                (normalize (fun column : list str => Some <$> column)
                   [bob "Hello How are you?"; amy "Good!"]))
      <= length (headers [banner; bob_hello; how_are_you; amy_good])
      <= length [banner; bob_hello; how_are_you; amy_good])%nat.
Proof.
  assert (parse [banner; bob_hello; how_are_you; amy_good]
          = Return [bob "Hello How are you?"; amy "Good!"]) as H
    by (vm_compute; reflexivity).
  split; [exact H|].
  exact (frame_rows_come_from_headers
           (fun column : list str => Some <$> column) (fun _ => true) _ _ H).
Defined.
